(** * Fragment span matcher of the PDF viewer (app/compare/page.tsx)

    A shallow embedding of [extractWords], [wordsMatch], [findWordInSpans]
    and [applyHighlights] of the [PDFViewer] component, with the properties
    of the highlight-span locator stated over it.

    Conventions of the embedding.
    - A JavaScript string is a sequence of UTF-16 code units.  The model uses
      [string] (a sequence of 8-bit characters), that is, text whose code
      units lie in the Latin-1 range 0..255; on that range [toLowerCase] is a
      per-character map and the regular-expression classes [\w] and [\s] are
      the finite sets written out below.
    - Array indices and page numbers are [nat]; the comparator handed to
      [Array.prototype.sort] computes a difference of spans in [Z].
    - Reading an array out of range gives [undefined] in JavaScript, and using
      [undefined] as a string receiver raises a [TypeError]; the model makes
      this explicit with the [result] monad.
    - The text-layer DOM is a list of pages, each with the list of its text
      spans; the pass threads that state explicitly. *)

From Stdlib Require Import Bool List Arith Lia ZArith Ascii String Sorted.
Import ListNotations.

Local Open Scope string_scope.
Local Open Scope list_scope.
Local Open Scope nat_scope.

(** ** JavaScript strings *)

Module JsString.

(** Code unit of a character. *)
Definition code (c : ascii) : nat := nat_of_ascii c.

Definition inRange (lo hi n : nat) : bool := (lo <=? n) && (n <=? hi).

(** [String.prototype.toLowerCase] on one Latin-1 code unit: A-Z and the
    accented capitals U+00C0..U+00DE (the multiplication sign U+00D7 apart)
    move up by 32; every other code unit is its own lower case. *)
Definition toLowerChar (c : ascii) : ascii :=
  let n := code c in
  if inRange 65 90 n then ascii_of_nat (n + 32)
  else if inRange 192 222 n && negb (n =? 215) then ascii_of_nat (n + 32)
  else c.

(** The class [\w] (no unicode flag): [A-Za-z0-9_]. *)
Definition isWordChar (c : ascii) : bool :=
  let n := code c in
  inRange 65 90 n || inRange 97 122 n || inRange 48 57 n || (n =? 95).

(** The lower-case word characters: [a-z0-9_]. *)
Definition isLowerWordChar (c : ascii) : bool :=
  let n := code c in
  inRange 97 122 n || inRange 48 57 n || (n =? 95).

(** The class [\s] restricted to code units below 256: tab, line feed,
    vertical tab, form feed, carriage return, space, no-break space. *)
Definition isSpace (c : ascii) : bool :=
  let n := code c in
  inRange 9 13 n || (n =? 32) || (n =? 160).

Fixpoint mapChars (f : ascii -> ascii) (s : string) : string :=
  match s with
  | EmptyString => EmptyString
  | String c s' => String (f c) (mapChars f s')
  end.

Fixpoint allChars (p : ascii -> bool) (s : string) : bool :=
  match s with
  | EmptyString => true
  | String c s' => p c && allChars p s'
  end.

Definition toLowerCase (s : string) : string := mapChars toLowerChar s.

(** [s.replace(/[^\w\s]/g, ' ')]. *)
Definition replaceNonWordNonSpace (s : string) : string :=
  mapChars (fun c => if isWordChar c || isSpace c then c else " "%char) s.

(** [s.split(/\s+/)]: the pieces between maximal runs of white space.  A
    leading or trailing run leaves an empty piece at that end, and the empty
    string splits into one empty piece.  [inRun] says that the previous
    character was white space, [cur] is the piece being read. *)
Fixpoint splitFrom (inRun : bool) (cur : string) (s : string) : list string :=
  match s with
  | EmptyString => [cur]
  | String c s' =>
      if isSpace c then
        if inRun then splitFrom true cur s'
        else cur :: splitFrom true EmptyString s'
      else splitFrom false (cur ++ String c EmptyString)%string s'
  end.

Definition split (s : string) : list string := splitFrom false EmptyString s.

(** [s.startsWith(p)]. *)
Fixpoint startsWith (s p : string) : bool :=
  match p, s with
  | EmptyString, _ => true
  | String _ _, EmptyString => false
  | String a p', String b s' => Ascii.eqb a b && startsWith s' p'
  end.

(** [s.includes(sub)]: [sub] occurs in [s] at some offset. *)
Fixpoint includes (s sub : string) : bool :=
  startsWith s sub
  || match s with
     | EmptyString => false
     | String _ s' => includes s' sub
     end.

End JsString.

(** ** The word helpers of the component *)

Module Matcher.
Import JsString.

(** [extractWords]: lower-case, blank out everything that is neither a word
    character nor white space, split on white space, keep the pieces longer
    than two characters. *)
Definition extractWords (text : string) : list string :=
  filter (fun w => 2 <? String.length w)
         (split (replaceNonWordNonSpace (toLowerCase text))).

(** [wordsMatch]: one word contains the other. *)
Definition wordsMatch (word1 word2 : string) : bool :=
  includes word1 word2 || includes word2 word1.

(** *** Errors

    [TypeError] stands for the exception JavaScript raises when a property
    of [undefined] is read. *)
Inductive result (A : Type) : Type :=
| Ok (a : A)
| TypeError.
Arguments Ok {A} a.
Arguments TypeError {A}.

Definition bind {A B : Type} (r : result A) (k : A -> result B) : result B :=
  match r with
  | Ok a => k a
  | TypeError => TypeError
  end.

Notation "x <- r ;; k" := (bind r (fun x => k))
  (at level 61, r at next level, right associativity).

(** [arr[i]] used as an object afterwards: [undefined] out of range, and the
    error is raised where the value is bound. *)
Definition arrayGet {A : Type} (arr : list A) (i : nat) : result A :=
  match nth_error arr i with
  | Some a => Ok a
  | None => TypeError
  end.

(** *** Insertion-ordered sets ([Set<string>]) *)

Definition setHas (s : list string) (w : string) : bool :=
  existsb (String.eqb w) s.

Definition setAdd (s : list string) (w : string) : list string :=
  if setHas s w then s else s ++ [w].

(** [new Set(arr)], read back in iteration order. *)
Definition newSet (arr : list string) : list string :=
  fold_left setAdd arr [].

(** *** Span data *)

(** [interface HighlightData]. *)
Record HighlightData := mkHighlightData {
  page : nat;
  text : string;
  summary : string;
  id : string;
  title : option string
}.

(** One entry of [spanData]; its [span] field is the DOM element with the
    same global index (see [Dom.applyHighlights]). *)
Record SpanDatum := mkSpanDatum {
  index : nat;
  words : list string
}.

(** The optional upper bound of [findWordInSpans], [Infinity] by default. *)
Inductive bound := Finite (n : Z) | Infinity.

Definition reaches (i : nat) (b : bound) : bool :=
  match b with
  | Finite n => (n <=? Z.of_nat i)%Z
  | Infinity => false
  end.

(** [findWordInSpans]: the indices of the spans one of whose words matches
    [targetWord], in the order of [spanData]. *)
Fixpoint findWordInSpans (targetWord : string) (spanData : list SpanDatum)
    (afterIndex : Z) (beforeIndex : bound) : list nat :=
  match spanData with
  | [] => []
  | span :: rest =>
      let positions := findWordInSpans targetWord rest afterIndex beforeIndex in
      if (Z.of_nat (index span) <=? afterIndex)%Z || reaches (index span) beforeIndex
      then positions
      else if existsb (fun w => wordsMatch w targetWord) (words span)
           then index span :: positions
           else positions
  end.

(** A candidate range [{ start, end }]. *)
Record Candidate := mkCandidate {
  start : nat;
  end_ : nat
}.

(** The two nested loops of step 2: starts outermost, ends innermost. *)
Definition generateCandidates (startPositions endPositions : list nat)
    : list Candidate :=
  flat_map (fun start =>
    flat_map (fun end_ =>
      if (start <? end_) && (end_ - start <=? 500)
      then [mkCandidate start end_] else [])
    endPositions)
  startPositions.

(** The comparator [(a, b) => (a.end - a.start) - (b.end - b.start)]. *)
Definition spanCompare (a b : Candidate) : Z :=
  ((Z.of_nat (end_ a) - Z.of_nat (start a))
   - (Z.of_nat (end_ b) - Z.of_nat (start b)))%Z.

(** [Array.prototype.sort] is a stable sort; with a consistent comparator its
    result is the one computed by stable insertion. *)
Fixpoint insertSorted {A : Type} (cmp : A -> A -> Z) (x : A) (l : list A)
    : list A :=
  match l with
  | [] => [x]
  | y :: l' =>
      if (cmp x y <=? 0)%Z then x :: y :: l' else y :: insertSorted cmp x l'
  end.

Fixpoint sort {A : Type} (cmp : A -> A -> Z) (l : list A) : list A :=
  match l with
  | [] => []
  | x :: l' => insertSorted cmp x (sort cmp l')
  end.

Definition commonWords : list string :=
  ["the"; "and"; "for"; "with"; "this"; "that"; "are"; "was"; "will";
   "from"; "have"; "has"].

Definition uniqueWordsOf (highlightWords : list string) : list string :=
  filter (fun w => negb (setHas commonWords w)) (newSet highlightWords).

(** The loop [for (let i = cand.start; i <= cand.end; i++)] collecting
    [rangeWords]; [spanData[i]?.words] skips an index out of range. *)
Definition rangeWordsOf (spanData : list SpanDatum) (cand : Candidate)
    : list string :=
  fold_left
    (fun rangeWords i =>
       match nth_error spanData i with
       | Some span => fold_left setAdd (words span) rangeWords
       | None => rangeWords
       end)
    (seq (start cand) (S (end_ cand) - start cand))
    [].

(** The predicate of [candidates.filter]: every unique word of the highlight
    matches some word of the range. *)
Definition containsAllWords (spanData : list SpanDatum)
    (uniqueWords : list string) (cand : Candidate) : bool :=
  let rangeWords := rangeWordsOf spanData cand in
  forallb (fun word => existsb (fun rw => wordsMatch word rw) rangeWords)
          uniqueWords.

(** The body of [highlightData.forEach] up to the choice of [bestCandidate]:
    [Ok None] is an early [return], [Ok (Some c)] the selected range.  The
    [console.log] calls do not change any state and are left out. *)
Definition matchHighlight (spanData : list SpanDatum)
    (highlight : HighlightData) : result (option Candidate) :=
  let highlightWords := extractWords (text highlight) in
  if List.length highlightWords <? 2 then Ok None else
  firstWord <- arrayGet highlightWords 0 ;;
  lastWord <- arrayGet highlightWords (List.length highlightWords - 1) ;;
  let startPositions := findWordInSpans firstWord spanData (-1) Infinity in
  let endPositions := findWordInSpans lastWord spanData (-1) Infinity in
  if (List.length startPositions =? 0) || (List.length endPositions =? 0)
  then Ok None else
  let candidates :=
    sort spanCompare (generateCandidates startPositions endPositions) in
  if List.length candidates =? 0 then Ok None else
  let uniqueWords := uniqueWordsOf highlightWords in
  let candidates := filter (containsAllWords spanData uniqueWords) candidates in
  if List.length candidates =? 0 then Ok None else
  bestCandidate <- arrayGet candidates 0 ;;
  Ok (Some bestCandidate).

(** *** Names for the intermediate values of [matchHighlight]

    [firstWord] and [lastWord] are the first and last of the extracted words
    of the highlight; the other values are computed from them as in the
    body above. *)
Definition firstWordOf (highlight : HighlightData) : string :=
  hd "" (extractWords (text highlight)).

Definition lastWordOf (highlight : HighlightData) : string :=
  last (extractWords (text highlight)) "".

Definition startPositionsOf (spanData : list SpanDatum)
    (highlight : HighlightData) : list nat :=
  findWordInSpans (firstWordOf highlight) spanData (-1) Infinity.

Definition endPositionsOf (spanData : list SpanDatum)
    (highlight : HighlightData) : list nat :=
  findWordInSpans (lastWordOf highlight) spanData (-1) Infinity.

Definition candidatesOf (spanData : list SpanDatum)
    (highlight : HighlightData) : list Candidate :=
  generateCandidates (startPositionsOf spanData highlight)
                     (endPositionsOf spanData highlight).

Definition survives (spanData : list SpanDatum) (highlight : HighlightData)
    (cand : Candidate) : bool :=
  containsAllWords spanData (uniqueWordsOf (extractWords (text highlight)))
                   cand.

End Matcher.

(** ** The text layer and the highlighting pass *)

Module Dom.
Import JsString Matcher.

(** The three closures installed on a highlighted span; each captures the
    highlight it was created for. *)
Inductive Handler :=
| SelectHighlight (highlight : HighlightData)
| ShowTooltip (highlight : HighlightData)
| HideTooltip.

(** The part of a text-layer [<span>] the component reads or writes. *)
Record HTMLElement := mkElement {
  textContent : string;
  style_backgroundColor : string;
  style_borderRadius : string;
  style_cursor : string;
  style_transition : string;
  style_transform : string;
  style_boxShadow : string;
  el_title : string;
  dataset_highlightId : option string;
  dataset_highlightSummary : option string;
  dataset_highlightTitle : option string;
  onclick : option Handler;
  onmouseenter : option Handler;
  onmouseleave : option Handler
}.

Definition HIGHLIGHT_COLOR : string := "rgba(249, 115, 22, 0.2)".
Definition HIGHLIGHT_COLOR_HOVER : string := "rgba(249, 115, 22, 0.35)".
Definition HIGHLIGHT_COLOR_SELECTED : string := "rgba(249, 115, 22, 0.5)".

(** The component state read by the pass ([null] is [None]). *)
Record ViewerState := mkViewerState {
  selectedHighlightId : option string;
  externalSelectedId : option string;
  hoveredHighlightId : option string
}.

Definition isId (v : option string) (i : string) : bool :=
  match v with
  | Some j => String.eqb j i
  | None => false
  end.

(** "Clear previous highlights from these spans". *)
Definition clearSpan (span : HTMLElement) : HTMLElement :=
  {| textContent := textContent span;
     style_backgroundColor := "";
     style_borderRadius := "";
     style_cursor := "";
     style_transition := style_transition span;
     style_transform := style_transform span;
     style_boxShadow := style_boxShadow span;
     el_title := "";
     dataset_highlightId := None;
     dataset_highlightSummary := None;
     dataset_highlightTitle := None;
     onclick := None;
     onmouseenter := None;
     onmouseleave := None |}.

(** The assignments made to one span of a selected range. *)
Definition tagSpan (st : ViewerState) (highlight : HighlightData)
    (el : HTMLElement) : HTMLElement :=
  let isSelected := isId (selectedHighlightId st) (id highlight)
                    || isId (externalSelectedId st) (id highlight) in
  let isHovered := isId (hoveredHighlightId st) (id highlight) in
  {| textContent := textContent el;
     style_backgroundColor :=
       if isSelected then HIGHLIGHT_COLOR_SELECTED
       else if isHovered then HIGHLIGHT_COLOR_HOVER else HIGHLIGHT_COLOR;
     style_borderRadius := "2px";
     style_cursor := "pointer";
     style_transition := "all 0.2s ease";
     style_transform := if isHovered then "scale(1.002)" else "scale(1)";
     style_boxShadow :=
       if isSelected then "0 2px 8px rgba(249, 115, 22, 0.30)"
       else if isHovered then "0 1px 4px rgba(249, 115, 22, 0.25)"
       else "none";
     el_title := el_title el;
     dataset_highlightId := Some (id highlight);
     dataset_highlightSummary := Some (summary highlight);
     dataset_highlightTitle :=
       match title highlight with
       | Some t => if String.eqb t "" then dataset_highlightTitle el else Some t
       | None => dataset_highlightTitle el
       end;
     onclick := Some (SelectHighlight highlight);
     onmouseenter := Some (ShowTooltip highlight);
     onmouseleave := Some HideTooltip |}.

(** A rendered page: [textSpans] is [None] when the page element or its
    text layer is not found. *)
Record PageDom := mkPageDom {
  pageNum : nat;
  textSpans : option (list HTMLElement)
}.

(** One entry of [allSpans]. *)
Record SpanInfo := mkSpanInfo {
  span : HTMLElement;
  spanPageNum : nat;
  localIndex : nat
}.

Fixpoint mapiFrom {A B : Type} (i : nat) (f : A -> nat -> B) (l : list A)
    : list B :=
  match l with
  | [] => []
  | a :: l' => f a i :: mapiFrom (S i) f l'
  end.

(** [arr.map((x, idx) => ...)]. *)
Definition mapi {A B : Type} (f : A -> nat -> B) (l : list A) : list B :=
  mapiFrom 0 f l.

Definition clearPage (p : PageDom) : PageDom :=
  {| pageNum := pageNum p;
     textSpans := option_map (map clearSpan) (textSpans p) |}.

(** The spans pushed on [allSpans] by [renderedPages.forEach]; [dom] lists
    the rendered pages in the iteration order of the set. *)
Definition collectSpans (dom : list PageDom) : list SpanInfo :=
  flat_map (fun p =>
    match textSpans p with
    | Some textSpans => mapi (fun span idx => mkSpanInfo span (pageNum p) idx)
                             textSpans
    | None => []
    end) dom.

(** [allSpans.map((spanInfo, idx) => ({ index: idx, words: ..., span }))]. *)
Definition buildSpanData (allSpans : list SpanInfo) : list SpanDatum :=
  mapi (fun spanInfo idx =>
          mkSpanDatum idx (extractWords (textContent (span spanInfo))))
       allSpans.

Fixpoint updateAt {A : Type} (i : nat) (f : A -> A) (l : list A) : list A :=
  match l, i with
  | [], _ => []
  | a :: l', 0 => f a :: l'
  | a :: l', S j => a :: updateAt j f l'
  end.

(** The loop [for (let i = best.start; i <= best.end; i++)] over the
    elements, addressed by global index; an index without element is
    skipped. *)
Definition tagRange (st : ViewerState) (highlight : HighlightData)
    (best : Candidate) (els : list HTMLElement) : list HTMLElement :=
  fold_left (fun els i => updateAt i (tagSpan st highlight) els)
            (seq (start best) (S (end_ best) - start best))
            els.

(** [highlightData.forEach]: the elements are mutated in place, and [sel]
    records the ranges selected so far, in the order they are applied. *)
Fixpoint forEachHighlight (st : ViewerState) (spanData : list SpanDatum)
    (highlightData : list HighlightData)
    (els : list HTMLElement) (sel : list (HighlightData * Candidate))
    : result (list HTMLElement * list (HighlightData * Candidate)) :=
  match highlightData with
  | [] => Ok (els, sel)
  | highlight :: rest =>
      r <- matchHighlight spanData highlight ;;
      match r with
      | None => forEachHighlight st spanData rest els sel
      | Some best =>
          forEachHighlight st spanData rest
            (tagRange st highlight best els) (sel ++ [(highlight, best)])
      end
  end.

(** The elements of [allSpans] are the DOM nodes themselves: the mutated
    elements are the spans of the pages, in order. *)
Fixpoint storeSpans (dom : list PageDom) (els : list HTMLElement)
    : list PageDom :=
  match dom with
  | [] => []
  | p :: dom' =>
      match textSpans p with
      | Some old =>
          mkPageDom (pageNum p) (Some (firstn (List.length old) els))
          :: storeSpans dom' (skipn (List.length old) els)
      | None => p :: storeSpans dom' els
      end
  end.

(** [applyHighlights]: the text layer after the pass, with the ranges it
    selected. *)
Definition applyHighlights (st : ViewerState)
    (highlightData : list HighlightData) (dom : list PageDom)
    : result (list PageDom * list (HighlightData * Candidate)) :=
  let cleared := map clearPage dom in
  let allSpans := collectSpans cleared in
  if List.length allSpans =? 0 then Ok (cleared, []) else
  let spanData := buildSpanData allSpans in
  r <- forEachHighlight st spanData highlightData (map span allSpans) [] ;;
  Ok (storeSpans cleared (fst r), snd r).

(** The spans of the rendered pages in global order. *)
Definition globalSpans (dom : list PageDom) : list HTMLElement :=
  map span (collectSpans dom).

(** A span carries no highlight: no background, shape or cursor, no tooltip
    text, no [data-highlight-*] attribute and no handler. *)
Definition untagged (el : HTMLElement) : Prop :=
  style_backgroundColor el = "" /\ style_borderRadius el = ""
  /\ style_cursor el = "" /\ el_title el = ""
  /\ dataset_highlightId el = None /\ dataset_highlightSummary el = None
  /\ dataset_highlightTitle el = None
  /\ onclick el = None /\ onmouseenter el = None /\ onmouseleave el = None.

(** A plain span holding [t], and a page of plain spans. *)
Definition plainSpan (t : string) : HTMLElement :=
  mkElement t "" "" "" "" "" "" "" None None None None None None.

Definition plainPage (n : nat) (texts : list string) : PageDom :=
  mkPageDom n (Some (map plainSpan texts)).

(** The span data of a list of fragment texts on one page. *)
Definition spanDataOf (texts : list string) : list SpanDatum :=
  buildSpanData (collectSpans [plainPage 1 texts]).

End Dom.

(** ** The terms of the specification *)

Module Spec.
Import JsString Matcher.

(** ASCII letters and digits. *)
Definition isAlphanumeric (c : ascii) : bool :=
  let n := code c in
  inRange 65 90 n || inRange 97 122 n || inRange 48 57 n.

Definition isEmpty (s : string) : bool :=
  match s with
  | EmptyString => true
  | String _ _ => false
  end.

(** Step 3, "split on whitespace runs": the maximal runs of characters that
    are not white space. *)
Fixpoint tokensFrom (cur : string) (s : string) : list string :=
  match s with
  | EmptyString => if isEmpty cur then [] else [cur]
  | String c s' =>
      if isSpace c then
        if isEmpty cur then tokensFrom EmptyString s'
        else cur :: tokensFrom EmptyString s'
      else tokensFrom (cur ++ String c EmptyString)%string s'
  end.

Definition tokens (s : string) : list string := tokensFrom EmptyString s.

(** The four steps, for a given class [keep] of characters that step 2
    leaves in place. *)
Definition normalizeWith (keep : ascii -> bool) (text : string)
    : list string :=
  let lowered := toLowerCase text in
  let blanked := mapChars (fun c => if keep c then c else " "%char) lowered in
  filter (fun w => negb (String.length w <? 3)) (tokens blanked).

(** The normalization of the specification: step 2 keeps the alphanumeric
    characters. *)
Definition normalize (text : string) : list string :=
  normalizeWith isAlphanumeric text.

(** The significant words of a text: its normalized tokens (of length at
    least 3) that are not in the stop-word list. *)
Definition significantWords (text : string) : list string :=
  filter (fun w => negb (setHas commonWords w)) (extractWords text).

(** [sub] occurs in [s]. *)
Definition Substring (sub s : string) : Prop :=
  exists pre post : string, s = (pre ++ sub ++ post)%string.

(** Loose match: containment in either direction. *)
Definition LooseMatch (a b : string) : Prop :=
  Substring a b \/ Substring b a.

(** The order in which the nested loops produce the candidates: by start,
    then by end. *)
Definition enumeratedBefore (a b : Candidate) : Prop :=
  start a < start b \/ (start a = start b /\ end_ a < end_ b).

(** The span length of a candidate, as the comparator measures it. *)
Definition spanLength (c : Candidate) : Z :=
  (Z.of_nat (end_ c) - Z.of_nat (start c))%Z.

(** A word occurs in a fragment when one of the fragment's words
    loose-matches it. *)
Definition OccursIn (word : string) (fragment : SpanDatum) : Prop :=
  exists w, In w (words fragment) /\ LooseMatch w word.

(** The four ways a highlight finds no range: too few words, no position
    for the first or for the last word, no pair of positions within the
    window, no candidate containing all the words. *)
Definition Unmatchable (spanData : list SpanDatum) (h : HighlightData)
    : Prop :=
  List.length (extractWords (text h)) < 2
  \/ startPositionsOf spanData h = []
  \/ endPositionsOf spanData h = []
  \/ candidatesOf spanData h = []
  \/ filter (survives spanData h) (candidatesOf spanData h) = [].

End Spec.

(** ** Sample inputs *)

Module Examples.
Import Matcher Dom.

Definition highlightOf (t : string) : HighlightData :=
  mkHighlightData 1 t "summary" "h1" None.

Definition idle : ViewerState := mkViewerState None None None.

Definition consentFragments : list string :=
  ["Data"; "privacy"; "requires"; "consent"; "from"; "users"].

Definition stopWordFragments : list string := ["the"; "and"].

Definition singleFragment : list string :=
  ["the"; "the privacy consent for"; "for"].

Definition repeatedFragments : list string :=
  ["foo"; "bar"; "foo"; "bar"; "baz"; "bar"].

Definition shortestLastFragments : list string :=
  ["foo"; "bar"; "foo baz"; "bar"].

Definition twoPages : list PageDom :=
  [plainPage 1 ["intro"]; plainPage 2 ["data"; "privacy"]].

(** A page whose only span still carries the tag of an earlier pass. *)
Definition stalePage : list PageDom :=
  [mkPageDom 1
     (Some [tagSpan idle (highlightOf "old text here") (plainSpan "fresh")])].

End Examples.

(** ** The rest of the viewer component *)

Module Viewer.
Import JsString Matcher Dom.

(** [Array.prototype.join(' ')], as used for the text snippet of a range. *)
Fixpoint joinWords (ws : list string) : string :=
  match ws with
  | [] => EmptyString
  | [w] => w
  | w :: rest => (w ++ " " ++ joinWords rest)%string
  end.

(** *** The effect "Update highlight colors when hover/selection changes" *)

(** The body of [textSpans.forEach] for one span of the text layer.  The
    selector [span[data-highlight-id]] skips a span without the attribute,
    and [if (!highlightId) return] one whose attribute is empty. *)
Definition recolorSpan (st : ViewerState) (el : HTMLElement) : HTMLElement :=
  match dataset_highlightId el with
  | None => el
  | Some highlightId =>
      if String.eqb highlightId "" then el else
      let isSelected := isId (selectedHighlightId st) highlightId
                        || isId (externalSelectedId st) highlightId in
      let isHovered := isId (hoveredHighlightId st) highlightId in
      {| textContent := textContent el;
         style_backgroundColor :=
           if isSelected then HIGHLIGHT_COLOR_SELECTED
           else if isHovered then HIGHLIGHT_COLOR_HOVER else HIGHLIGHT_COLOR;
         style_borderRadius := style_borderRadius el;
         style_cursor := style_cursor el;
         style_transition := style_transition el;
         style_transform := if isHovered then "scale(1.01)" else "scale(1)";
         style_boxShadow :=
           if isSelected then "0 2px 8px rgba(249, 115, 22, 0.3)"
           else if isHovered then "0 1px 4px rgba(249, 115, 22, 0.2)"
           else "none";
         el_title := el_title el;
         dataset_highlightId := dataset_highlightId el;
         dataset_highlightSummary := dataset_highlightSummary el;
         dataset_highlightTitle := dataset_highlightTitle el;
         onclick := onclick el;
         onmouseenter := onmouseenter el;
         onmouseleave := onmouseleave el |}
  end.

Definition recolorPage (st : ViewerState) (p : PageDom) : PageDom :=
  {| pageNum := pageNum p;
     textSpans := option_map (map (recolorSpan st)) (textSpans p) |}.

(** The effect itself; it returns at once when no page is rendered. *)
Definition updateHighlightColors (st : ViewerState) (dom : list PageDom)
    : list PageDom :=
  if List.length dom =? 0 then dom else map (recolorPage st) dom.

(** The effect "Re-apply highlights when highlightData or rendered pages
    change": it runs the pass unless there is no highlight or no rendered
    page; [dom] lists the rendered pages. *)
Definition reapplyHighlightsEffect (st : ViewerState)
    (highlightData : list HighlightData) (dom : list PageDom)
    : result (list PageDom) :=
  if (List.length highlightData =? 0) || (List.length dom =? 0) then Ok dom
  else r <- applyHighlights st highlightData dom ;; Ok (fst r).

(** *** Rendered pages *)

(** [new Set([...prev, pageNumber])] on the set of rendered pages, kept in
    insertion order. *)
Definition pagesHas (s : list nat) (n : nat) : bool := existsb (Nat.eqb n) s.

Definition pagesAdd (s : list nat) (n : nat) : list nat :=
  if pagesHas s n then s else s ++ [n].

Definition handlePageRenderSuccess (prev : list nat) (pageNumber : nat)
    : list nat :=
  fold_left pagesAdd (prev ++ [pageNumber]) [].

(** The pages [renderedPages.forEach] visits: [pageRefs n] is the list of
    text spans found under the element of page [n], if any. *)
Definition domOf (pageRefs : nat -> option (list HTMLElement))
    (renderedPages : list nat) : list PageDom :=
  map (fun n => mkPageDom n (pageRefs n)) renderedPages.

(** *** Scroll tracking

    Pixel coordinates are floating-point numbers; the component only
    compares them, in [pageRect.top <= containerTop + 100].  [coord] stands
    for the coordinates and [reached top containerTop] for that test. *)
Section Scrolling.
Context {coord : Type} (reached : coord -> coord -> bool).

(** The refs the scroll code shares; [timeoutSet] says that
    [scrollTimeoutRef.current] holds a timer id (it is never reset). *)
Record ScrollRefs := mkScrollRefs {
  lastRequestedPage : nat;
  isUserScrolling : bool;
  timeoutSet : bool
}.

(** What the handlers do to the outside. *)
Inductive ScrollAction :=
| OnPageChange (page : nat)
| ScrollIntoView (page : nat)
| ClearTimeout
| SetTimeout600.

(** The loop [for (let i = 1; i <= numPages; i++)] of [handleScroll];
    [pageTop i] is the top of the element of page [i], when it exists. *)
Definition findVisiblePage (pageTop : nat -> option coord)
    (containerTop : coord) (numPages : nat) : nat :=
  fold_left
    (fun visiblePage i =>
       match pageTop i with
       | Some top => if reached top containerTop then i else visiblePage
       | None => visiblePage
       end)
    (seq 1 numPages) 1.

(** [handleScroll]; [container] is the top of the container when
    [containerRef.current] is set. *)
Definition handleScroll (container : option coord)
    (pageTop : nat -> option coord) (numPages : nat) (refs : ScrollRefs)
    : ScrollRefs * list ScrollAction :=
  match container with
  | None => (refs, [])
  | Some containerTop =>
      if negb (isUserScrolling refs) then (refs, []) else
      let visiblePage := findVisiblePage pageTop containerTop numPages in
      if negb (visiblePage =? lastRequestedPage refs)
      then (mkScrollRefs visiblePage (isUserScrolling refs)
                         (timeoutSet refs),
            [OnPageChange visiblePage])
      else (refs, [])
  end.

(** The effect "Scroll to current page when it changes from parent";
    [hasElement p] says that [pageRefs.current[p]] is set. *)
Definition pageChangeEffect (hasContainer : bool) (hasElement : nat -> bool)
    (numPages currentPage : nat) (refs : ScrollRefs)
    : ScrollRefs * list ScrollAction :=
  if negb hasContainer || (numPages =? 0) then (refs, []) else
  if lastRequestedPage refs =? currentPage then (refs, []) else
  if hasElement currentPage then
    (mkScrollRefs currentPage false true,
     ScrollIntoView currentPage
     :: (if timeoutSet refs then [ClearTimeout] else []) ++ [SetTimeout600])
  else (mkScrollRefs currentPage (isUserScrolling refs) (timeoutSet refs),
        []).

(** The callback of the 600 ms timer. *)
Definition timerFires (refs : ScrollRefs) : ScrollRefs :=
  mkScrollRefs (lastRequestedPage refs) true (timeoutSet refs).

End Scrolling.

End Viewer.

(** ** The comparison page *)

Module Compare.
Import Matcher.

(** The fields of [ComparisonTheme] read by the expansion logic. *)
Record ComparisonTheme := mkTheme {
  theme_name : string;
  theme_status : string
}.

(** [Set.prototype.delete]. *)
Definition setDelete (s : list string) (w : string) : list string :=
  filter (fun x => negb (String.eqb w x)) s.

(** [toggleTheme]: the updater handed to [setExpandedThemes]. *)
Definition toggleTheme (name : string) (prev : list string) : list string :=
  let next := newSet prev in
  if setHas next name then setDelete next name else setAdd next name.

(** "Auto-expand themes with issues" in [handleCompare]. *)
Definition themesWithIssues (themes : list ComparisonTheme) : list string :=
  fold_left
    (fun issues t =>
       if negb (String.eqb (theme_status t) "Fully Aligned")
       then setAdd issues (theme_name t) else issues)
    themes [].

End Compare.

(** * Properties *)

(** ** Characters and strings *)

Module StringFacts.
Import JsString Matcher Spec.

Ltac by_cases_on_char c :=
  destruct c as [[] [] [] [] [] [] [] []]; vm_compute; try reflexivity;
  try discriminate; auto.

Lemma lower_word_char (c : ascii) :
  isWordChar (toLowerChar c) = true -> isLowerWordChar (toLowerChar c) = true.
Proof. by_cases_on_char c. Qed.

Lemma allChars_app (p : ascii -> bool) (s t : string) :
  allChars p (s ++ t)%string = allChars p s && allChars p t.
Proof.
  induction s as [|c s IH]; simpl; [reflexivity|].
  rewrite IH. now rewrite andb_assoc.
Qed.

(** Every piece of a split is made of the characters that are not white
    space. *)
Lemma splitFrom_chars (p : ascii -> bool) (s : string) :
  allChars (fun c => isSpace c || p c) s = true ->
  forall inRun cur, allChars p cur = true ->
  Forall (fun w => allChars p w = true) (splitFrom inRun cur s).
Proof.
  induction s as [|c s IH]; simpl; intros Hs inRun cur Hcur.
  - constructor; auto.
  - apply andb_true_iff in Hs as [Hc Hs].
    destruct (isSpace c) eqn:Esp.
    + destruct inRun; [now apply IH|].
      constructor; [assumption|]. now apply IH.
    + simpl in Hc. apply IH; [assumption|].
      rewrite allChars_app. simpl. now rewrite Hcur, Hc.
Qed.

(** Dropping the empty pieces of [split] leaves the runs of characters that
    are not white space. *)
Lemma splitFrom_tokensFrom (s : string) :
  forall cur,
    filter (fun w => negb (isEmpty w)) (splitFrom false cur s) = tokensFrom cur s
    /\ filter (fun w => negb (isEmpty w)) (splitFrom true EmptyString s)
       = tokensFrom EmptyString s.
Proof.
  induction s as [|c s IH]; intros cur; simpl.
  - split; [now destruct (isEmpty cur)|reflexivity].
  - destruct (isSpace c).
    + destruct (IH EmptyString) as [_ Hrun]. simpl. rewrite Hrun.
      split; [now destruct (isEmpty cur)|reflexivity].
    + split; apply IH.
Qed.

Lemma split_tokens (s : string) :
  filter (fun w => negb (isEmpty w)) (split s) = tokens s.
Proof. apply splitFrom_tokensFrom. Qed.

(** The runs only depend on which characters are white space and on the
    others. *)
Lemma tokensFrom_mapChars (f g : ascii -> ascii) :
  (forall c, isSpace (f c) = isSpace (g c)) ->
  (forall c, isSpace (f c) = false -> f c = g c) ->
  forall s cur, tokensFrom cur (mapChars f s) = tokensFrom cur (mapChars g s).
Proof.
  intros Hsp Heq s. induction s as [|c s IH]; intros cur; simpl.
  - reflexivity.
  - rewrite <- Hsp. destruct (isSpace (f c)) eqn:E.
    + now rewrite IH.
    + rewrite <- (Heq c E). apply IH.
Qed.

Lemma filter_filter_weaker {A : Type} (p q : A -> bool) (l : list A) :
  (forall a, p a = true -> q a = true) ->
  filter p (filter q l) = filter p l.
Proof.
  intros Hpq. induction l as [|a l IH]; simpl; [reflexivity|].
  destruct (q a) eqn:Eq; simpl.
  - now rewrite IH.
  - destruct (p a) eqn:Ep; [|assumption].
    apply Hpq in Ep. congruence.
Qed.

(** [extractWords] is the four-step normalization in which step 2 keeps the
    word characters [A-Za-z0-9_]. *)
Lemma extractWords_normalizeWith (text : string) :
  extractWords text = normalizeWith isWordChar text.
Proof.
  unfold extractWords, normalizeWith, replaceNonWordNonSpace, tokens.
  rewrite <- (tokensFrom_mapChars
                (fun c => if isWordChar c || isSpace c then c else " "%char)
                (fun c => if isWordChar c then c else " "%char)).
  - rewrite <- (proj1 (splitFrom_tokensFrom _ EmptyString)).
    fold (split (mapChars (fun c => if isWordChar c || isSpace c then c else " "%char)
                          (toLowerCase text))).
    rewrite (filter_ext (fun w => negb (String.length w <? 3))
                        (fun w => 2 <? String.length w)).
    + symmetry. apply filter_filter_weaker.
      intros [|c w]; simpl; [discriminate|reflexivity].
    + intros w. destruct (Nat.ltb_spec (String.length w) 3);
        destruct (Nat.ltb_spec 2 (String.length w)); simpl; auto; lia.
  - intros c. destruct (isWordChar c); simpl; [reflexivity|].
    destruct (isSpace c) eqn:E; [now rewrite E|reflexivity].
  - intros c. destruct (isWordChar c); simpl; [reflexivity|].
    destruct (isSpace c) eqn:E; [now rewrite E|]. discriminate.
Qed.

Lemma replaced_chars (s : string) :
  allChars (fun c => isSpace c || isLowerWordChar c)
           (replaceNonWordNonSpace (toLowerCase s)) = true.
Proof.
  induction s as [|c s IH]; simpl; [reflexivity|].
  apply andb_true_iff. split; [|exact IH].
  destruct (isWordChar (toLowerChar c)) eqn:Ew; simpl.
  - rewrite (lower_word_char c Ew). apply orb_true_r.
  - destruct (isSpace (toLowerChar c)) eqn:Es; [now rewrite Es|reflexivity].
Qed.

Lemma extractWords_tokens (text : string) :
  Forall (fun w => 3 <= String.length w /\ allChars isLowerWordChar w = true)
         (extractWords text).
Proof.
  unfold extractWords. apply Forall_forall. intros w Hw.
  apply filter_In in Hw as [Hin Hlen]. split.
  - apply Nat.ltb_lt in Hlen. lia.
  - pose proof (splitFrom_chars isLowerWordChar _ (replaced_chars text)
                  false EmptyString eq_refl) as Hall.
    rewrite Forall_forall in Hall. now apply Hall.
Qed.

(** [includes] is the occurrence of a substring. *)
Lemma startsWith_spec (s p : string) :
  startsWith s p = true <-> exists post, s = (p ++ post)%string.
Proof.
  revert s. induction p as [|a p IH]; intros s; simpl.
  - split; [intros _; now exists s|intros _; now destruct s].
  - destruct s as [|b s].
    + simpl. split; [discriminate|intros [post H]; discriminate].
    + simpl. rewrite andb_true_iff, IH, Ascii.eqb_eq. split.
      * intros [-> [post ->]]. now exists post.
      * intros [post H]. injection H as -> ->. split; [reflexivity|now exists post].
Qed.

Lemma includes_spec (s sub : string) :
  includes s sub = true <-> Substring sub s.
Proof.
  unfold Substring. induction s as [|c s IH]; cbn [includes].
  - rewrite orb_false_r, startsWith_spec. split.
    + intros [post H]. now exists EmptyString, post.
    + intros [[|a pre] [post H]]; [now exists post|discriminate].
  - rewrite orb_true_iff, startsWith_spec, IH. split.
    + intros [[post H]|[pre [post H]]].
      * now exists EmptyString, post.
      * exists (String c pre), post. simpl. now rewrite H.
    + intros [[|a pre] [post H]].
      * left. now exists post.
      * right. simpl in H. injection H as -> ->. now exists pre, post.
Qed.

Lemma wordsMatch_spec (word1 word2 : string) :
  wordsMatch word1 word2 = true <-> LooseMatch word1 word2.
Proof.
  unfold wordsMatch, LooseMatch.
  rewrite orb_true_iff, !includes_spec. tauto.
Qed.

End StringFacts.

(** ** Lists, sorting and sets *)

Module ListFacts.
Import Matcher.

Lemma StronglySorted_filter {A : Type} (R : A -> A -> Prop) (p : A -> bool)
    (l : list A) :
  StronglySorted R l -> StronglySorted R (filter p l).
Proof.
  induction 1 as [|a l Hl IH Ha]; simpl; [constructor|].
  destruct (p a); [|assumption].
  constructor; [assumption|].
  rewrite Forall_forall in *. intros x Hx.
  apply filter_In in Hx. now apply Ha.
Qed.

Lemma StronglySorted_app {A : Type} (R : A -> A -> Prop) (l1 l2 : list A) :
  StronglySorted R l1 -> StronglySorted R l2 ->
  (forall x y, In x l1 -> In y l2 -> R x y) ->
  StronglySorted R (l1 ++ l2).
Proof.
  induction 1 as [|a l Hl IH Ha]; simpl; intros H2 Hcross; [assumption|].
  constructor.
  - apply IH; [assumption|]. intros x y Hx Hy. apply Hcross; simpl; auto.
  - apply Forall_app. split; [assumption|].
    apply Forall_forall. intros y Hy. apply Hcross; simpl; auto.
Qed.

(** The first element kept by a filter of a sorted list is below every other
    element the filter keeps. *)
Lemma filter_head_least {A : Type} (R : A -> A -> Prop) (p : A -> bool)
    (l : list A) (x : A) (rest : list A) :
  StronglySorted R l -> filter p l = x :: rest ->
  forall y, In y l -> p y = true -> y = x \/ R x y.
Proof.
  intros Hs Hf y Hy Hp.
  assert (Hin : In y (filter p l)) by (apply filter_In; auto).
  apply (StronglySorted_filter R p) in Hs. rewrite Hf in Hs, Hin.
  inversion Hs as [|? ? _ Hall]; subst.
  destruct Hin as [->|Hin]; [now left|right].
  rewrite Forall_forall in Hall. now apply Hall.
Qed.

Lemma StronglySorted_seq (k n : nat) : StronglySorted lt (seq k n).
Proof.
  revert k. induction n as [|n IH]; intros k; simpl; constructor.
  - apply IH.
  - apply Forall_forall. intros x Hx. apply in_seq in Hx. lia.
Qed.

Lemma nth_error_last {A : Type} (l : list A) (d : A) :
  l <> [] -> nth_error l (List.length l - 1) = Some (last l d).
Proof.
  induction l as [|a l IH]; [congruence|]. intros _.
  destruct l as [|b l]; [reflexivity|].
  replace (List.length (a :: b :: l) - 1) with (S (List.length (b :: l) - 1))
    by (simpl; lia).
  cbn [nth_error]. rewrite IH by discriminate. reflexivity.
Qed.

Lemma insertSorted_In {A : Type} (cmp : A -> A -> Z) (x y : A) (l : list A) :
  In y (insertSorted cmp x l) <-> y = x \/ In y l.
Proof.
  induction l as [|z l IH]; simpl.
  - intuition.
  - destruct (cmp x z <=? 0)%Z; simpl; [intuition|].
    rewrite IH. intuition.
Qed.

Lemma sort_In {A : Type} (cmp : A -> A -> Z) (y : A) (l : list A) :
  In y (sort cmp l) <-> In y l.
Proof.
  induction l as [|x l IH]; simpl; [tauto|].
  rewrite insertSorted_In, IH. intuition.
Qed.

Lemma filter_comm {A : Type} (p q : A -> bool) (l : list A) :
  filter p (filter q l) = filter q (filter p l).
Proof.
  induction l as [|a l IH]; simpl; [reflexivity|].
  destruct (p a) eqn:Ep, (q a) eqn:Eq; simpl; rewrite ?Ep, ?Eq, ?IH;
    reflexivity.
Qed.

Section Sorting.
Context {A : Type} (key : A -> Z) (cmp : A -> A -> Z).
Hypothesis cmp_key : forall x y, cmp x y = (key x - key y)%Z.

Lemma insertSorted_sorted (x : A) (l : list A) :
  StronglySorted (fun a b => (key a <= key b)%Z) l ->
  StronglySorted (fun a b => (key a <= key b)%Z) (insertSorted cmp x l).
Proof.
  induction 1 as [|z l Hl IH Hz]; simpl.
  - repeat constructor.
  - destruct (Z.leb_spec (cmp x z) 0) as [Hle|Hgt]; rewrite cmp_key in *.
    + constructor; [now constructor|].
      constructor; [lia|].
      rewrite Forall_forall in *. intros y Hy.
      specialize (Hz y Hy). simpl in Hz. lia.
    + constructor; [assumption|].
      rewrite Forall_forall in *. intros y Hy.
      apply insertSorted_In in Hy as [->|Hy]; [lia|auto].
Qed.

Lemma sort_sorted (l : list A) :
  StronglySorted (fun a b => (key a <= key b)%Z) (sort cmp l).
Proof.
  induction l as [|x l IH]; simpl; [constructor|].
  now apply insertSorted_sorted.
Qed.

(** Stability: among the elements of one key the order of the input is
    kept. *)
Lemma insertSorted_same_key (k : Z) (x : A) (l : list A) :
  filter (fun a => (key a =? k)%Z) (insertSorted cmp x l)
  = if (key x =? k)%Z then x :: filter (fun a => (key a =? k)%Z) l
    else filter (fun a => (key a =? k)%Z) l.
Proof.
  induction l as [|z l IH]; simpl; [reflexivity|].
  destruct (Z.leb_spec (cmp x z) 0) as [Hle|Hgt]; rewrite cmp_key in *.
  - reflexivity.
  - simpl. rewrite IH.
    destruct (Z.eqb_spec (key x) k), (Z.eqb_spec (key z) k);
      try reflexivity; lia.
Qed.

Lemma sort_stable (k : Z) (l : list A) :
  filter (fun a => (key a =? k)%Z) (sort cmp l)
  = filter (fun a => (key a =? k)%Z) l.
Proof.
  induction l as [|x l IH]; simpl; [reflexivity|].
  now rewrite insertSorted_same_key, IH.
Qed.
End Sorting.

(** *** Insertion-ordered sets *)

Lemma setHas_In (s : list string) (w : string) :
  setHas s w = true <-> In w s.
Proof.
  unfold setHas. rewrite existsb_exists. split.
  - intros [x [Hx Heq]]. apply String.eqb_eq in Heq. now subst.
  - intros Hw. exists w. split; [assumption|apply String.eqb_refl].
Qed.

Lemma setAdd_In (s : list string) (w x : string) :
  In x (setAdd s w) <-> In x s \/ x = w.
Proof.
  unfold setAdd. destruct (setHas s w) eqn:E.
  - apply setHas_In in E. split; [auto|]. intros [H| ->]; assumption.
  - rewrite in_app_iff. simpl. intuition.
Qed.

Lemma fold_setAdd_In (l s : list string) (x : string) :
  In x (fold_left setAdd l s) <-> In x s \/ In x l.
Proof.
  revert s. induction l as [|w l IH]; intros s; simpl; [tauto|].
  rewrite IH, setAdd_In. intuition.
Qed.

Lemma newSet_In (l : list string) (x : string) : In x (newSet l) <-> In x l.
Proof. unfold newSet. rewrite fold_setAdd_In. simpl. tauto. Qed.

Lemma uniqueWordsOf_In (highlightWords : list string) (w : string) :
  In w (uniqueWordsOf highlightWords)
  <-> In w highlightWords /\ ~ In w commonWords.
Proof.
  unfold uniqueWordsOf. rewrite filter_In, newSet_In, negb_true_iff.
  rewrite <- (setHas_In commonWords w).
  destruct (setHas commonWords w); intuition congruence.
Qed.

End ListFacts.

(** ** The steps of the matcher *)

Module MatcherFacts.
Import JsString Matcher Dom Spec StringFacts ListFacts.

(** *** Step 1: positions *)

Lemma findWordInSpans_In (w : string) (spanData : list SpanDatum) (i : nat) :
  In i (findWordInSpans w spanData (-1) Infinity)
  <-> exists sp, In sp spanData /\ index sp = i
                 /\ existsb (fun x => wordsMatch x w) (words sp) = true.
Proof.
  induction spanData as [|sp rest IH]; simpl.
  - split; [tauto|]. intros [sp [[] _]].
  - replace (Z.of_nat (index sp) <=? -1)%Z with false
      by (symmetry; apply Z.leb_gt; lia).
    simpl. destruct (existsb (fun x => wordsMatch x w) (words sp)) eqn:E.
    + simpl. rewrite IH. split.
      * intros [<-|[sp' [Hin H]]]; [exists sp; auto|exists sp'; auto].
      * intros [sp' [[<-|Hin] [Hi Hm]]]; [now left|right; exists sp'; auto].
    + rewrite IH. split.
      * intros [sp' [Hin H]]. exists sp'; auto.
      * intros [sp' [[<-|Hin] [Hi Hm]]]; [congruence|exists sp'; auto].
Qed.

Lemma findWordInSpans_incl (w : string) (spanData : list SpanDatum)
    (a : Z) (b : bound) (i : nat) :
  In i (findWordInSpans w spanData a b) -> In i (map index spanData).
Proof.
  induction spanData as [|sp rest IH]; simpl; [tauto|].
  destruct ((Z.of_nat (index sp) <=? a)%Z || reaches (index sp) b);
    [auto|].
  destruct (existsb (fun x => wordsMatch x w) (words sp)); simpl; [|auto].
  intros [H|H]; auto.
Qed.

Lemma findWordInSpans_sorted (w : string) (spanData : list SpanDatum)
    (a : Z) (b : bound) :
  StronglySorted lt (map index spanData) ->
  StronglySorted lt (findWordInSpans w spanData a b).
Proof.
  induction spanData as [|sp rest IH]; simpl; intros Hs; [constructor|].
  inversion Hs as [|? ? Hrest Hall]; subst.
  destruct ((Z.of_nat (index sp) <=? a)%Z || reaches (index sp) b);
    [auto|].
  destruct (existsb (fun x => wordsMatch x w) (words sp)); [|auto].
  constructor; [auto|].
  rewrite Forall_forall in *. intros i Hi.
  apply Hall. eapply findWordInSpans_incl; eassumption.
Qed.

(** *** The span data of the text layer *)

Lemma mapiFrom_nth_error {A B : Type} (f : A -> nat -> B) (l : list A)
    (k i : nat) :
  nth_error (mapiFrom k f l) i
  = option_map (fun a => f a (k + i)) (nth_error l i).
Proof.
  revert k i. induction l as [|a l IH]; intros k [|i]; simpl; try reflexivity.
  - now rewrite Nat.add_0_r.
  - rewrite IH. now rewrite Nat.add_succ_r.
Qed.

Lemma buildSpanData_index (allSpans : list SpanInfo) :
  map index (buildSpanData allSpans) = seq 0 (List.length allSpans).
Proof.
  unfold buildSpanData, mapi. generalize 0.
  induction allSpans as [|a l IH]; intros k; simpl; [reflexivity|].
  now rewrite IH.
Qed.

Lemma buildSpanData_nth_error (allSpans : list SpanInfo) (i : nat) :
  nth_error (buildSpanData allSpans) i
  = option_map
      (fun info => mkSpanDatum i (extractWords (textContent (span info))))
      (nth_error allSpans i).
Proof. unfold buildSpanData, mapi. now rewrite mapiFrom_nth_error. Qed.

Lemma buildSpanData_sorted (allSpans : list SpanInfo) :
  StronglySorted lt (map index (buildSpanData allSpans)).
Proof. rewrite buildSpanData_index. apply StronglySorted_seq. Qed.

(** *** Step 2: candidates *)

Lemma generateCandidates_In (sp ep : list nat) (c : Candidate) :
  In c (generateCandidates sp ep)
  <-> In (start c) sp /\ In (end_ c) ep
      /\ start c < end_ c /\ end_ c - start c <= 500.
Proof.
  unfold generateCandidates. rewrite in_flat_map. split.
  - intros [s [Hs Hc]]. apply in_flat_map in Hc as [e [He Hc]].
    destruct (Nat.ltb_spec s e); destruct (Nat.leb_spec (e - s) 500);
      simpl in Hc; try tauto.
    destruct Hc as [<-|[]]. simpl. auto.
  - intros (Hs & He & Hlt & Hle). exists (start c). split; [assumption|].
    apply in_flat_map. exists (end_ c). split; [assumption|].
    apply Nat.ltb_lt in Hlt. apply Nat.leb_le in Hle. rewrite Hlt, Hle.
    destruct c; simpl; auto.
Qed.

Lemma generateCandidates_no_end (sp : list nat) :
  generateCandidates sp [] = [].
Proof. induction sp as [|s sp IH]; simpl; auto. Qed.

Lemma candidates_of_start_sorted (s : nat) (ep : list nat) :
  StronglySorted lt ep ->
  StronglySorted enumeratedBefore
    (flat_map (fun e => if (s <? e) && (e - s <=? 500)
                        then [mkCandidate s e] else []) ep).
Proof.
  induction 1 as [|e ep Hep IH Hall]; simpl; [constructor|].
  destruct ((s <? e) && (e - s <=? 500)); simpl; [|assumption].
  constructor; [assumption|].
  apply Forall_forall. intros c Hc.
  apply in_flat_map in Hc as [e' [He' Hc]].
  rewrite Forall_forall in Hall. specialize (Hall e' He').
  destruct ((s <? e') && (e' - s <=? 500)); simpl in Hc; [|tauto].
  destruct Hc as [<-|[]]. right. simpl. auto.
Qed.

Lemma candidates_of_start (s : nat) (ep : list nat) (c : Candidate) :
  In c (flat_map (fun e => if (s <? e) && (e - s <=? 500)
                           then [mkCandidate s e] else []) ep) ->
  start c = s.
Proof.
  intros Hc. apply in_flat_map in Hc as [e [_ Hc]].
  destruct ((s <? e) && (e - s <=? 500)); simpl in Hc; [|tauto].
  now destruct Hc as [<-|[]].
Qed.

(** The candidates come out by increasing start and, for one start, by
    increasing end. *)
Lemma generateCandidates_sorted (sp ep : list nat) :
  StronglySorted lt sp -> StronglySorted lt ep ->
  StronglySorted enumeratedBefore (generateCandidates sp ep).
Proof.
  intros Hsp Hep. unfold generateCandidates.
  induction Hsp as [|s sp Hsp IH Hall]; simpl; [constructor|].
  apply StronglySorted_app; [now apply candidates_of_start_sorted|exact IH|].
  intros x y Hx Hy. apply candidates_of_start in Hx.
  apply in_flat_map in Hy as [s' [Hs' Hy]].
  apply candidates_of_start in Hy.
  rewrite Forall_forall in Hall. specialize (Hall s' Hs').
  left. lia.
Qed.

(** *** Step 3: the words of a range *)

Lemma rangeWords_fold_In (spanData : list SpanDatum) (idxs : list nat)
    (acc : list string) (rw : string) :
  In rw (fold_left
           (fun rangeWords i =>
              match nth_error spanData i with
              | Some span => fold_left setAdd (words span) rangeWords
              | None => rangeWords
              end) idxs acc)
  <-> In rw acc
      \/ exists i sp, In i idxs /\ nth_error spanData i = Some sp
                      /\ In rw (words sp).
Proof.
  revert acc. induction idxs as [|i idxs IH]; intros acc; simpl.
  - split; [auto|]. intros [H|(i & sp & [] & _)]; assumption.
  - rewrite IH. destruct (nth_error spanData i) as [sp|] eqn:E.
    + rewrite fold_setAdd_In. split.
      * intros [[H|H]|(j & sp' & Hj & Hn & Hw)]; auto.
        -- right. exists i, sp. auto.
        -- right. exists j, sp'. auto.
      * intros [H|(j & sp' & [<-|Hj] & Hn & Hw)]; auto.
        -- left. right. congruence.
        -- right. exists j, sp'. auto.
    + split.
      * intros [H|(j & sp' & Hj & Hn & Hw)]; auto.
        right. exists j, sp'. auto.
      * intros [H|(j & sp' & [<-|Hj] & Hn & Hw)]; auto; [congruence|].
        right. exists j, sp'. auto.
Qed.

Lemma rangeWordsOf_In (spanData : list SpanDatum) (c : Candidate)
    (rw : string) :
  In rw (rangeWordsOf spanData c)
  <-> exists i sp, start c <= i <= end_ c /\ nth_error spanData i = Some sp
                   /\ In rw (words sp).
Proof.
  unfold rangeWordsOf. rewrite rangeWords_fold_In. split.
  - intros [[]|(i & sp & Hi & H)]. exists i, sp. split; [|assumption].
    apply in_seq in Hi. lia.
  - intros (i & sp & Hi & H). right. exists i, sp. split; [|assumption].
    apply in_seq. lia.
Qed.

Lemma containsAllWords_spec (spanData : list SpanDatum)
    (uniqueWords : list string) (c : Candidate) :
  containsAllWords spanData uniqueWords c = true
  <-> forall word, In word uniqueWords ->
        exists i sp rw, start c <= i <= end_ c
                        /\ nth_error spanData i = Some sp
                        /\ In rw (words sp) /\ LooseMatch word rw.
Proof.
  unfold containsAllWords. rewrite forallb_forall. split.
  - intros H word Hw. specialize (H word Hw).
    apply existsb_exists in H as [rw [Hrw Hm]].
    apply rangeWordsOf_In in Hrw as (i & sp & Hi & Hn & Hin).
    exists i, sp, rw. rewrite <- wordsMatch_spec. auto.
  - intros H word Hw. destruct (H word Hw) as (i & sp & rw & Hi & Hn & Hin & Hm).
    apply existsb_exists. exists rw. split.
    + apply rangeWordsOf_In. exists i, sp. auto.
    + now apply wordsMatch_spec.
Qed.

(** *** The whole of [matchHighlight] *)

(** No [TypeError]: after the guard on the number of words, the result is
    the first survivor of the sorted candidates, if any. *)
Lemma matchHighlight_eq (spanData : list SpanDatum) (h : HighlightData) :
  matchHighlight spanData h
  = Ok (if List.length (extractWords (text h)) <? 2 then None
        else hd_error (filter (survives spanData h)
                              (sort spanCompare (candidatesOf spanData h)))).
Proof.
  unfold matchHighlight, survives, candidatesOf, startPositionsOf,
    endPositionsOf, firstWordOf, lastWordOf.
  destruct (Nat.ltb_spec (List.length (extractWords (text h))) 2) as [Hlt|Hge];
    [reflexivity|].
  set (hw := extractWords (text h)) in *.
  assert (Hne : hw <> []) by (intros E; rewrite E in Hge; simpl in Hge; lia).
  unfold arrayGet at 1 2.
  rewrite (nth_error_last hw "" Hne).
  destruct hw as [|w0 hw'] eqn:Ehw; [congruence|].
  cbn [nth_error bind hd].
  set (sp := findWordInSpans w0 spanData (-1) Infinity).
  set (ep := findWordInSpans (last (w0 :: hw') "") spanData (-1) Infinity).
  destruct sp as [|s0 sp']; [reflexivity|].
  destruct ep as [|e0 ep'].
  { simpl. now rewrite generateCandidates_no_end. }
  cbn [List.length Nat.eqb orb].
  destruct (sort spanCompare (generateCandidates (s0 :: sp') (e0 :: ep')))
    as [|c0 cs]; [reflexivity|].
  cbn [List.length Nat.eqb].
  destruct (filter _ (c0 :: cs)) as [|b bs]; reflexivity.
Qed.

(** What a selected range satisfies. *)
Lemma matchHighlight_selected (spanData : list SpanDatum) (h : HighlightData)
    (best : Candidate) :
  matchHighlight spanData h = Ok (Some best) ->
  2 <= List.length (extractWords (text h))
  /\ exists rest,
       filter (survives spanData h)
              (sort spanCompare (candidatesOf spanData h)) = best :: rest.
Proof.
  rewrite matchHighlight_eq.
  destruct (Nat.ltb_spec (List.length (extractWords (text h))) 2);
    [discriminate|].
  intros Hm. split; [assumption|].
  destruct (filter _ _) as [|b bs]; [discriminate|].
  injection Hm as ->. now exists bs.
Qed.

Lemma spanCompare_key (a b : Candidate) :
  spanCompare a b = (spanLength a - spanLength b)%Z.
Proof. reflexivity. Qed.

Lemma selected_is_candidate (spanData : list SpanDatum) (h : HighlightData)
    (best : Candidate) :
  matchHighlight spanData h = Ok (Some best) ->
  In best (candidatesOf spanData h) /\ survives spanData h best = true.
Proof.
  intros H. apply matchHighlight_selected in H as [_ [rest Hf]].
  assert (Hin : In best (filter (survives spanData h)
                           (sort spanCompare (candidatesOf spanData h))))
    by (rewrite Hf; now left).
  apply filter_In in Hin as [Hin Hs].
  apply sort_In in Hin. auto.
Qed.

End MatcherFacts.

(** ** The text layer *)

Module DomFacts.
Import JsString Matcher Dom Spec ListFacts MatcherFacts.

Lemma updateAt_length {A : Type} (f : A -> A) (l : list A) (i : nat) :
  List.length (updateAt i f l) = List.length l.
Proof.
  revert i. induction l as [|a l IH]; intros [|i]; simpl; auto.
Qed.

Lemma updateAt_other {A : Type} (f : A -> A) (l : list A) (i j : nat) :
  i <> j -> nth_error (updateAt j f l) i = nth_error l i.
Proof.
  revert i j. induction l as [|a l IH]; intros [|i] [|j] H; simpl; auto.
  congruence.
Qed.

Lemma updateAll_length {A : Type} (f : A -> A) (idxs : list nat) (l : list A) :
  List.length (fold_left (fun els i => updateAt i f els) idxs l)
  = List.length l.
Proof.
  revert l. induction idxs as [|i idxs IH]; intros l; simpl; [reflexivity|].
  now rewrite IH, updateAt_length.
Qed.

Lemma updateAll_other {A : Type} (f : A -> A) (idxs : list nat) (l : list A)
    (i : nat) :
  ~ In i idxs ->
  nth_error (fold_left (fun els i => updateAt i f els) idxs l) i
  = nth_error l i.
Proof.
  revert l. induction idxs as [|j idxs IH]; intros l H; simpl; [reflexivity|].
  simpl in H. rewrite IH by tauto. apply updateAt_other. intuition.
Qed.

Lemma tagRange_length (st : ViewerState) (h : HighlightData) (c : Candidate)
    (els : list HTMLElement) :
  List.length (tagRange st h c els) = List.length els.
Proof. apply updateAll_length. Qed.

(** Tagging a range leaves the spans outside of it as they were. *)
Lemma tagRange_outside (st : ViewerState) (h : HighlightData) (c : Candidate)
    (els : list HTMLElement) (i : nat) :
  ~ (start c <= i <= end_ c) ->
  nth_error (tagRange st h c els) i = nth_error els i.
Proof.
  intros H. apply updateAll_other. rewrite in_seq. lia.
Qed.

(** The loop over the highlights: it never fails, it selects exactly the
    ranges [matchHighlight] finds, and it touches no span outside of them. *)
Lemma forEachHighlight_spec (st : ViewerState) (spanData : list SpanDatum)
    (highlightData : list HighlightData) :
  forall els sel,
  exists els' new,
    forEachHighlight st spanData highlightData els sel = Ok (els', sel ++ new)
    /\ List.length els' = List.length els
    /\ (forall h c, In (h, c) new
                    <-> In h highlightData
                        /\ matchHighlight spanData h = Ok (Some c))
    /\ (forall i, (forall h c, In (h, c) new -> ~ (start c <= i <= end_ c)) ->
                  nth_error els' i = nth_error els i).
Proof.
  induction highlightData as [|h rest IH]; intros els sel; simpl.
  - exists els, []. rewrite app_nil_r.
    split; [reflexivity|]. split; [reflexivity|]. split; [|reflexivity].
    intros h c. simpl. tauto.
  - destruct (matchHighlight spanData h) as [[best|]|] eqn:E; simpl.
    + destruct (IH (tagRange st h best els) (sel ++ [(h, best)]))
        as (els' & new & Hrun & Hlen & Hsel & Hout).
      exists els', ((h, best) :: new). rewrite Hrun, <- app_assoc. simpl.
      split; [reflexivity|]. split; [now rewrite Hlen, tagRange_length|].
      split.
      * intros h' c. simpl. rewrite Hsel. split.
        -- intros [Heq|[Hin Hm]]; [|auto].
           injection Heq as <- <-. auto.
        -- intros [[<-|Hin] Hm]; [|auto].
           left. congruence.
      * intros i Hi. rewrite Hout by (intros h' c Hin; apply (Hi h'); now right).
        apply tagRange_outside. apply (Hi h). now left.
    + destruct (IH els sel) as (els' & new & Hrun & Hlen & Hsel & Hout).
      exists els', new.
      split; [assumption|]. split; [assumption|]. split; [|assumption].
      intros h' c. rewrite Hsel. simpl. split; [tauto|].
      intros [[<-|Hin] Hm]; [congruence|auto].
    + rewrite matchHighlight_eq in E. discriminate.
Qed.

(** A highlight without match is skipped. *)
Lemma forEachHighlight_skip (st : ViewerState) (spanData : list SpanDatum)
    (h : HighlightData) (before after : list HighlightData) :
  matchHighlight spanData h = Ok None ->
  forall els sel,
    forEachHighlight st spanData (before ++ h :: after) els sel
    = forEachHighlight st spanData (before ++ after) els sel.
Proof.
  intros Hnone. induction before as [|b before IH]; intros els sel; simpl.
  - now rewrite Hnone.
  - destruct (matchHighlight spanData b) as [[best|]|]; simpl; auto.
Qed.

(** *** Pages and global indices *)

Lemma span_mapiFrom (n : nat) (l : list HTMLElement) (k : nat) :
  map span (mapiFrom k (fun span idx => mkSpanInfo span n idx) l) = l.
Proof.
  revert k. induction l as [|a l IH]; intros k; simpl; [reflexivity|].
  now rewrite IH.
Qed.

Lemma globalSpans_cons (p : PageDom) (dom : list PageDom) :
  globalSpans (p :: dom)
  = match textSpans p with Some l => l | None => [] end ++ globalSpans dom.
Proof.
  unfold globalSpans, collectSpans. simpl. rewrite map_app. f_equal.
  destruct (textSpans p); [apply span_mapiFrom|reflexivity].
Qed.

Lemma globalSpans_clear (dom : list PageDom) :
  globalSpans (map clearPage dom) = map clearSpan (globalSpans dom).
Proof.
  induction dom as [|p dom IH]; [reflexivity|].
  cbn [map]. rewrite !globalSpans_cons, map_app, IH. f_equal.
  unfold clearPage. simpl. now destruct (textSpans p).
Qed.

(** Writing the spans of the pages back gives the pages. *)
Lemma storeSpans_same (dom : list PageDom) :
  storeSpans dom (globalSpans dom) = dom.
Proof.
  induction dom as [|p dom IH]; [reflexivity|].
  rewrite globalSpans_cons. simpl.
  destruct p as [n [l|]]; simpl.
  - rewrite firstn_app, Nat.sub_diag, firstn_all, firstn_O, app_nil_r.
    rewrite skipn_app, Nat.sub_diag, skipn_all. simpl. now rewrite IH.
  - now rewrite IH.
Qed.

(** Reading the spans after a write gives what was written. *)
Lemma globalSpans_store (dom : list PageDom) :
  forall els, List.length els = List.length (globalSpans dom) ->
              globalSpans (storeSpans dom els) = els.
Proof.
  induction dom as [|p dom IH]; intros els Hlen.
  - destruct els; [reflexivity|discriminate].
  - rewrite globalSpans_cons, length_app in Hlen. simpl.
    destruct (textSpans p) as [old|] eqn:E.
    + rewrite globalSpans_cons. simpl.
      rewrite IH by (rewrite length_skipn; lia).
      apply firstn_skipn.
    + rewrite globalSpans_cons, E. simpl. apply IH. simpl in Hlen. lia.
Qed.

Lemma clearSpan_untagged (el : HTMLElement) : untagged (clearSpan el).
Proof. unfold untagged. simpl. repeat split. Qed.

Lemma clearPage_idem (dom : list PageDom) :
  map clearPage (map clearPage dom) = map clearPage dom.
Proof.
  rewrite map_map. apply map_ext. intros [n [l|]]; unfold clearPage; simpl;
    [|reflexivity].
  f_equal. f_equal. rewrite map_map. now apply map_ext.
Qed.

Lemma collectSpans_length (dom : list PageDom) :
  List.length (collectSpans dom) = List.length (globalSpans dom).
Proof. unfold globalSpans. now rewrite length_map. Qed.

(** The words of the spans are not changed by clearing. *)
Lemma buildSpanData_texts (a b : list SpanInfo) :
  map (fun i => textContent (span i)) a = map (fun i => textContent (span i)) b ->
  buildSpanData a = buildSpanData b.
Proof.
  unfold buildSpanData, mapi. generalize 0. revert b.
  induction a as [|x a IH]; intros [|y b] k H; simpl in *; try discriminate;
    [reflexivity|].
  injection H as Hx Hrest. now rewrite Hx, (IH b (S k) Hrest).
Qed.

Lemma buildSpanData_clear (dom : list PageDom) :
  buildSpanData (collectSpans (map clearPage dom))
  = buildSpanData (collectSpans dom).
Proof.
  apply buildSpanData_texts.
  rewrite <- !(map_map span textContent).
  fold (globalSpans (map clearPage dom)). fold (globalSpans dom).
  rewrite globalSpans_clear, map_map. reflexivity.
Qed.

(** The pass in one equation: it returns, and with which spans. *)
Lemma applyHighlights_spec (st : ViewerState)
    (highlightData : list HighlightData) (dom : list PageDom) :
  exists els sel,
    applyHighlights st highlightData dom
    = Ok (storeSpans (map clearPage dom) els, sel)
    /\ List.length els = List.length (globalSpans dom)
    /\ (forall h c, In (h, c) sel ->
          In h highlightData
          /\ matchHighlight (buildSpanData (collectSpans dom)) h
             = Ok (Some c))
    /\ (globalSpans dom <> [] ->
        forall h c, In h highlightData ->
          matchHighlight (buildSpanData (collectSpans dom)) h = Ok (Some c) ->
          In (h, c) sel)
    /\ (forall i, (forall h c, In (h, c) sel -> ~ (start c <= i <= end_ c)) ->
          nth_error els i = nth_error (map clearSpan (globalSpans dom)) i).
Proof.
  unfold applyHighlights.
  destruct (Nat.eqb_spec (List.length (collectSpans (map clearPage dom))) 0)
    as [Hz|Hnz].
  - exists (globalSpans (map clearPage dom)), [].
    rewrite storeSpans_same. split; [reflexivity|].
    rewrite globalSpans_clear, length_map. split; [reflexivity|].
    split; [intros h c []|]. split; [|reflexivity].
    intros Hne. exfalso. apply Hne.
    rewrite collectSpans_length, globalSpans_clear, length_map in Hz.
    now apply length_zero_iff_nil.
  - destruct (forEachHighlight_spec st
                (buildSpanData (collectSpans (map clearPage dom)))
                highlightData (map span (collectSpans (map clearPage dom))) [])
      as (els & new & Hrun & Hlen & Hsel & Hout).
    rewrite Hrun. simpl. exists els, new. split; [reflexivity|].
    fold (globalSpans (map clearPage dom)) in Hlen, Hout.
    rewrite globalSpans_clear in Hlen, Hout. rewrite length_map in Hlen.
    rewrite buildSpanData_clear in Hsel.
    split; [assumption|]. split; [intros h c; apply Hsel|].
    split; [intros _ h c Hin Hm; apply Hsel; auto|assumption].
Qed.

End DomFacts.

(** * The properties of the span locator *)

Import JsString Matcher Dom Spec Examples.
Import StringFacts ListFacts MatcherFacts DomFacts.

(** ** C1: highlights with too few words *)

(** C1, as stated, does not hold: the guard of [matchHighlight] counts the
    extracted words, stop words included.  The highlight "the and" has no
    significant word at all and is matched on the fragments "the", "and". *)
Lemma few_significant_words_matched :
  List.length (significantWords (text (highlightOf "the and"))) < 2
  /\ matchHighlight (spanDataOf stopWordFragments) (highlightOf "the and")
     = Ok (Some (mkCandidate 0 1)).
Proof. split; [vm_compute; lia|vm_compute; reflexivity]. Qed.

(** C1 (amended): for every highlight whose text has fewer than 2 extracted
    words (normalized tokens of length at least 3, stop words and repetitions
    counted), [matchHighlight] returns without a range, and the pass selects
    no range and tags no span for it. *)
Theorem too_few_words_no_range (spanData : list SpanDatum) (h : HighlightData) :
  List.length (extractWords (text h)) < 2 ->
  matchHighlight spanData h = Ok None
  /\ forall st rest els sel,
       forEachHighlight st spanData (h :: rest) els sel
       = forEachHighlight st spanData rest els sel.
Proof.
  intros Hlen.
  assert (Hnone : matchHighlight spanData h = Ok None).
  { rewrite matchHighlight_eq. apply Nat.ltb_lt in Hlen. now rewrite Hlen. }
  split; [assumption|].
  intros st rest els sel. simpl. now rewrite Hnone.
Qed.

Lemma too_few_words_no_range_witness :
  matchHighlight (spanDataOf consentFragments) (highlightOf "data") = Ok None
  /\ forEachHighlight idle (spanDataOf consentFragments)
       [highlightOf "data"] [] []
     = forEachHighlight idle (spanDataOf consentFragments) [] [] [].
Proof.
  destruct (too_few_words_no_range (spanDataOf consentFragments)
              (highlightOf "data")) as [Hnone Hskip].
  - vm_compute. lia.
  - split; [exact Hnone|apply Hskip].
Defined.

(** ** C2: the normalization *)

(** C2: the code departs from the normalization on the underscore.  The
    replacement is commented "Replace punctuation with space" and the
    normalization replaces every non-alphanumeric character, but the class
    [\w] of the regular expression contains the underscore: on "foo_bar"
    [extractWords] returns the single token "foo_bar", which is not
    alphanumeric, where the four steps give "foo" and "bar". *)
Lemma underscore_is_kept :
  extractWords "foo_bar" = ["foo_bar"]
  /\ normalize "foo_bar" = ["foo"; "bar"]
  /\ allChars isAlphanumeric "foo_bar" = false.
Proof. repeat split; vm_compute; reflexivity. Qed.

(** What [extractWords] computes as it is written: the four steps with
    the class [\w] in place of the alphanumeric characters in step 2, so
    that every token has length at least 3 and consists of lower-case ASCII
    letters, digits and underscores. *)
Lemma extractWords_refines_normalization (text : string) :
  extractWords text = normalizeWith isWordChar text
  /\ Forall (fun w => 3 <= String.length w
                      /\ allChars isLowerWordChar w = true)
            (extractWords text).
Proof.
  split; [apply extractWords_normalizeWith|apply extractWords_tokens].
Qed.

(** ** C3: the smallest span *)

(** C3: when a range is selected, no candidate range (start among the start
    positions, end among the end positions, end after start, at most 500
    apart) that contains all the words is strictly shorter. *)
Theorem selected_span_is_smallest (spanData : list SpanDatum)
    (h : HighlightData) (best c : Candidate) :
  matchHighlight spanData h = Ok (Some best) ->
  In (start c) (startPositionsOf spanData h) ->
  In (end_ c) (endPositionsOf spanData h) ->
  start c < end_ c ->
  end_ c - start c <= 500 ->
  survives spanData h c = true ->
  end_ best - start best <= end_ c - start c.
Proof.
  intros Hm Hs He Hlt Hwin Hsurv.
  assert (Hc : In c (candidatesOf spanData h))
    by (apply generateCandidates_In; auto).
  destruct (selected_is_candidate _ _ _ Hm) as [Hb _].
  apply generateCandidates_In in Hb as (_ & _ & Hblt & _).
  apply matchHighlight_selected in Hm as [_ [rest Hf]].
  pose proof (sort_sorted spanLength spanCompare spanCompare_key
                (candidatesOf spanData h)) as Hsorted.
  destruct (filter_head_least _ _ _ _ _ Hsorted Hf c) as [->|Hle];
    [now apply sort_In|assumption|lia|].
  unfold spanLength in Hle. lia.
Qed.

Lemma selected_span_is_smallest_witness :
  end_ (mkCandidate 0 1) - start (mkCandidate 0 1)
  <= end_ (mkCandidate 0 3) - start (mkCandidate 0 3).
Proof.
  apply (selected_span_is_smallest (spanDataOf repeatedFragments)
           (highlightOf "foo bar") (mkCandidate 0 1) (mkCandidate 0 3)).
  - vm_compute. reflexivity.
  - vm_compute. auto.
  - vm_compute. auto.
  - simpl. lia.
  - simpl. lia.
  - vm_compute. reflexivity.
Defined.

(** ** C4: the words of the highlight are in the range *)

(** C4: when a range is selected, every extracted word of the highlight that
    is not a stop word loose-matches a word extracted from one of the spans
    with global index between start and end, both included. *)
Theorem selected_range_contains_words (allSpans : list SpanInfo)
    (h : HighlightData) (best : Candidate) :
  matchHighlight (buildSpanData allSpans) h = Ok (Some best) ->
  forall word,
    In word (extractWords (text h)) -> ~ In word commonWords ->
    exists i info rw,
      start best <= i <= end_ best
      /\ nth_error allSpans i = Some info
      /\ In rw (extractWords (textContent (span info)))
      /\ LooseMatch word rw.
Proof.
  intros Hm word Hw Hcommon.
  destruct (selected_is_candidate _ _ _ Hm) as [_ Hsurv].
  unfold survives in Hsurv. rewrite containsAllWords_spec in Hsurv.
  destruct (Hsurv word) as (i & sp & rw & Hi & Hn & Hin & Hmatch).
  { apply uniqueWordsOf_In. auto. }
  rewrite buildSpanData_nth_error in Hn.
  destruct (nth_error allSpans i) as [info|] eqn:E; [|discriminate].
  injection Hn as <-. exists i, info, rw. auto.
Qed.

Lemma selected_range_contains_words_witness :
  exists i info rw,
    1 <= i <= 3
    /\ nth_error (collectSpans [plainPage 1 consentFragments]) i = Some info
    /\ In rw (extractWords (textContent (span info)))
    /\ LooseMatch "requires" rw.
Proof.
  apply (selected_range_contains_words
           (collectSpans [plainPage 1 consentFragments])
           (highlightOf "privacy requires consent") (mkCandidate 1 3)).
  - vm_compute. reflexivity.
  - vm_compute. auto.
  - vm_compute. intuition discriminate.
Defined.

(** ** C5: the bounds of a selected range *)

(** C5: a selected range has its start at or before its end, and at most 500
    spans between them. *)
Theorem selected_range_bounds (spanData : list SpanDatum) (h : HighlightData)
    (best : Candidate) :
  matchHighlight spanData h = Ok (Some best) ->
  start best <= end_ best /\ end_ best - start best <= 500.
Proof.
  intros Hm. destruct (selected_is_candidate _ _ _ Hm) as [Hb _].
  apply generateCandidates_In in Hb as (_ & _ & Hlt & Hwin). lia.
Qed.

Lemma selected_range_bounds_witness :
  start (mkCandidate 1 3) <= end_ (mkCandidate 1 3)
  /\ end_ (mkCandidate 1 3) - start (mkCandidate 1 3) <= 500.
Proof.
  apply (selected_range_bounds (spanDataOf consentFragments)
           (highlightOf "privacy requires consent") (mkCandidate 1 3)).
  vm_compute. reflexivity.
Defined.

(** ** C6: ties between shortest ranges *)

(** C6: the candidates are produced by increasing start and then increasing
    end; the sorted list holds the same candidates by increasing span
    length, and the sort keeps the order of production among candidates of
    equal length; the selected range is the first candidate of the sorted
    list that contains all the words.  So the selected range is a surviving
    candidate of the smallest span length, and among the surviving
    candidates of that length it has the earliest start and, for that start,
    the earliest end. *)
Theorem ties_go_to_earliest_start (allSpans : list SpanInfo)
    (h : HighlightData) (best : Candidate) :
  let spanData := buildSpanData allSpans in
  matchHighlight spanData h = Ok (Some best) ->
  StronglySorted enumeratedBefore (candidatesOf spanData h)
  /\ StronglySorted (fun a b => (spanLength a <= spanLength b)%Z)
       (sort spanCompare (candidatesOf spanData h))
  /\ (forall c, In c (sort spanCompare (candidatesOf spanData h))
                <-> In c (candidatesOf spanData h))
  /\ (forall k,
        filter (fun a => (spanLength a =? k)%Z)
               (sort spanCompare (candidatesOf spanData h))
        = filter (fun a => (spanLength a =? k)%Z) (candidatesOf spanData h))
  /\ hd_error (filter (survives spanData h)
                      (sort spanCompare (candidatesOf spanData h)))
     = Some best
  /\ In best (candidatesOf spanData h)
  /\ survives spanData h best = true
  /\ forall c,
       In c (candidatesOf spanData h) ->
       survives spanData h c = true ->
       end_ best - start best <= end_ c - start c
       /\ (end_ c - start c = end_ best - start best ->
           start best <= start c
           /\ (start best = start c -> end_ best <= end_ c)).
Proof.
  intros spanData Hm.
  assert (Henum : StronglySorted enumeratedBefore (candidatesOf spanData h)).
  { apply generateCandidates_sorted;
      apply findWordInSpans_sorted, buildSpanData_sorted. }
  pose proof (sort_stable spanLength spanCompare spanCompare_key) as Hstable.
  pose proof (sort_sorted spanLength spanCompare spanCompare_key
                (candidatesOf spanData h)) as Hsorted.
  destruct (selected_is_candidate _ _ _ Hm) as [Hb Hbs].
  pose proof Hb as Hb'.
  apply generateCandidates_In in Hb' as (_ & _ & Hblt & _).
  apply matchHighlight_selected in Hm as [_ [rest Hf]].
  split; [exact Henum|]. split; [exact Hsorted|].
  split; [intros c; apply sort_In|].
  split; [intros k; apply Hstable|].
  split; [now rewrite Hf|].
  split; [exact Hb|]. split; [exact Hbs|].
  intros c Hc Hsurv.
  pose proof Hc as Hc'.
  apply generateCandidates_In in Hc' as (_ & _ & Hclt & _).
  split.
  - destruct (filter_head_least _ _ _ _ _ Hsorted Hf c) as [->|Hle];
      [now apply sort_In|assumption|lia|].
    unfold spanLength in Hle. lia.
  - intros Hsame.
    pose proof (f_equal (filter (fun a => (spanLength a =? spanLength best)%Z))
                  Hf) as Hk.
    rewrite filter_comm, Hstable in Hk. simpl in Hk.
    rewrite Z.eqb_refl in Hk.
    destruct (filter_head_least enumeratedBefore _ _ _ _
                (StronglySorted_filter _ _ _ Henum) Hk c) as [->|Hlex].
    + apply filter_In. split; [assumption|].
      apply Z.eqb_eq. unfold spanLength. lia.
    + assumption.
    + lia.
    + unfold enumeratedBefore in Hlex. lia.
Qed.

Lemma ties_go_to_earliest_start_witness :
  (end_ (mkCandidate 2 3) - start (mkCandidate 2 3)
   <= end_ (mkCandidate 0 3) - start (mkCandidate 0 3)
   /\ (end_ (mkCandidate 0 3) - start (mkCandidate 0 3)
       = end_ (mkCandidate 2 3) - start (mkCandidate 2 3) ->
       start (mkCandidate 2 3) <= start (mkCandidate 0 3)
       /\ (start (mkCandidate 2 3) = start (mkCandidate 0 3) ->
           end_ (mkCandidate 2 3) <= end_ (mkCandidate 0 3))))
  /\ (end_ (mkCandidate 0 1) - start (mkCandidate 0 1)
      <= end_ (mkCandidate 2 3) - start (mkCandidate 2 3)
      /\ (end_ (mkCandidate 2 3) - start (mkCandidate 2 3)
          = end_ (mkCandidate 0 1) - start (mkCandidate 0 1) ->
          start (mkCandidate 0 1) <= start (mkCandidate 2 3)
          /\ (start (mkCandidate 0 1) = start (mkCandidate 2 3) ->
              end_ (mkCandidate 0 1) <= end_ (mkCandidate 2 3)))).
Proof.
  destruct (ties_go_to_earliest_start
              (collectSpans [plainPage 1 shortestLastFragments])
              (highlightOf "foo baz bar") (mkCandidate 2 3))
    as (_ & _ & _ & _ & _ & _ & _ & Hshort).
  { vm_compute. reflexivity. }
  destruct (ties_go_to_earliest_start
              (collectSpans [plainPage 1 repeatedFragments])
              (highlightOf "foo bar") (mkCandidate 0 1))
    as (_ & _ & _ & _ & _ & _ & _ & Htie).
  { vm_compute. reflexivity. }
  split.
  - apply (Hshort (mkCandidate 0 3)).
    + vm_compute. auto.
    + vm_compute. reflexivity.
  - apply (Htie (mkCandidate 2 3)).
    + vm_compute. auto.
    + vm_compute. reflexivity.
Defined.

(** The sort decides: the candidates of "foo baz bar" are produced in the
    order 0..1, 0..3, 2..3; the first in that order to contain all the words
    is 0..3, the selected range is the shorter 2..3. *)
Example shortest_range_is_not_first_produced :
  candidatesOf (spanDataOf shortestLastFragments) (highlightOf "foo baz bar")
  = [mkCandidate 0 1; mkCandidate 0 3; mkCandidate 2 3]
  /\ hd_error (filter (survives (spanDataOf shortestLastFragments)
                         (highlightOf "foo baz bar"))
                 (candidatesOf (spanDataOf shortestLastFragments)
                    (highlightOf "foo baz bar")))
     = Some (mkCandidate 0 3)
  /\ matchHighlight (spanDataOf shortestLastFragments)
       (highlightOf "foo baz bar")
     = Ok (Some (mkCandidate 2 3)).
Proof. repeat split; vm_compute; reflexivity. Qed.

(** ** C7: no failure *)

Lemma unmatchable_no_range (spanData : list SpanDatum) (h : HighlightData) :
  Unmatchable spanData h -> matchHighlight spanData h = Ok None.
Proof.
  rewrite matchHighlight_eq.
  destruct (List.length (extractWords (text h)) <? 2) eqn:Eguard;
    [reflexivity|].
  intros [Hfew|Hrest]; [apply Nat.ltb_lt in Hfew; congruence|].
  assert (Hnone : filter (survives spanData h) (candidatesOf spanData h) = []).
  { unfold candidatesOf in *.
    destruct Hrest as [Hs|[He|[Hc|Hf]]].
    - now rewrite Hs.
    - now rewrite He, generateCandidates_no_end.
    - now rewrite Hc.
    - assumption. }
  destruct (filter _ (sort _ _)) as [|b bs] eqn:Ef; [reflexivity|].
  assert (Hb : In b (filter (survives spanData h) (candidatesOf spanData h))).
  { assert (Hin : In b (b :: bs)) by now left.
    rewrite <- Ef in Hin. apply filter_In in Hin as [Hin Hs].
    apply filter_In. split; [now apply sort_In in Hin|assumption]. }
  rewrite Hnone in Hb. destruct Hb.
Qed.

(** C7: the pass always returns, without [TypeError]; with no span or with
    no highlight it selects no range and leaves the cleared text layer; a
    highlight that is unmatchable (too few words, no start or end position,
    no candidate within the window, no candidate containing all the words)
    gets no range, and the pass goes on with the other highlights as if it
    were not there. *)
Theorem pass_is_total (st : ViewerState) (dom : list PageDom) :
  (forall highlightData,
     exists dom' sel, applyHighlights st highlightData dom = Ok (dom', sel))
  /\ (forall spanData h, exists r, matchHighlight spanData h = Ok r)
  /\ (forall highlightData,
        globalSpans dom = [] ->
        applyHighlights st highlightData dom = Ok (map clearPage dom, []))
  /\ applyHighlights st [] dom = Ok (map clearPage dom, [])
  /\ (forall spanData h,
        Unmatchable spanData h -> matchHighlight spanData h = Ok None)
  /\ (forall before h after,
        Unmatchable (buildSpanData (collectSpans dom)) h ->
        applyHighlights st (before ++ h :: after) dom
        = applyHighlights st (before ++ after) dom).
Proof.
  split; [|split; [|split; [|split; [|split]]]].
  - intros highlightData.
    destruct (applyHighlights_spec st highlightData dom)
      as (els & sel & Heq & _).
    eauto.
  - intros spanData h. rewrite matchHighlight_eq. eauto.
  - intros highlightData Hempty. unfold applyHighlights.
    rewrite collectSpans_length, globalSpans_clear, Hempty. reflexivity.
  - unfold applyHighlights.
    destruct (List.length (collectSpans (map clearPage dom)) =? 0);
      [reflexivity|].
    simpl. fold (globalSpans (map clearPage dom)).
    now rewrite storeSpans_same.
  - apply unmatchable_no_range.
  - intros before h after Hun. unfold applyHighlights.
    destruct (List.length (collectSpans (map clearPage dom)) =? 0);
      [reflexivity|].
    rewrite buildSpanData_clear.
    now rewrite (forEachHighlight_skip st _ h before after
                   (unmatchable_no_range _ _ Hun)).
Qed.

Lemma pass_is_total_witness :
  applyHighlights idle [highlightOf "privacy requires consent"] []
  = Ok (map clearPage [], [])
  /\ matchHighlight (spanDataOf consentFragments) (highlightOf "data")
     = Ok None
  /\ applyHighlights idle
       ([highlightOf "privacy requires consent"]
        ++ highlightOf "data" :: [highlightOf "consent from users"])
       [plainPage 1 consentFragments]
     = applyHighlights idle
         ([highlightOf "privacy requires consent"]
          ++ [highlightOf "consent from users"])
         [plainPage 1 consentFragments].
Proof.
  destruct (pass_is_total idle []) as (_ & _ & Hnospan & _ & Hnone & _).
  destruct (pass_is_total idle [plainPage 1 consentFragments])
    as (_ & _ & _ & _ & _ & Hskip).
  split; [|split].
  - apply Hnospan. reflexivity.
  - apply Hnone. left. vm_compute. lia.
  - apply Hskip. left. vm_compute. lia.
Defined.

(** ** C8: a range has at least two spans *)

(** C8, as stated, does not hold for the significant words: the positions
    are looked up for the first and last extracted words, stop words
    included.  In "the privacy consent for" the first and last significant
    words are "privacy" and "consent"; both occur in span 1 only, whose text
    is the whole target, and yet the range 0..1 is selected. *)
Lemma significant_words_in_one_fragment_matched :
  let h := highlightOf "the privacy consent for" in
  let spanData := spanDataOf singleFragment in
  hd "" (significantWords (text h)) = "privacy"
  /\ last (significantWords (text h)) "" = "consent"
  /\ findWordInSpans "privacy" spanData (-1) Infinity = [1]
  /\ findWordInSpans "consent" spanData (-1) Infinity = [1]
  /\ nth_error singleFragment 1 = Some (text h)
  /\ matchHighlight spanData h = Ok (Some (mkCandidate 0 1)).
Proof. repeat split; vm_compute; reflexivity. Qed.

(** C8 (amended): every selected range has its start strictly before its
    end, so no selected range consists of a single span; a highlight whose
    first and last extracted words (stop words included) occur only within
    one and the same span gets no range, whatever the text of that span. *)
Theorem selected_range_has_two_spans (spanData : list SpanDatum)
    (h : HighlightData) :
  (forall best,
     matchHighlight spanData h = Ok (Some best) -> start best < end_ best)
  /\ (forall k,
        (forall sp, In sp spanData ->
                    OccursIn (firstWordOf h) sp \/ OccursIn (lastWordOf h) sp ->
                    index sp = k) ->
        matchHighlight spanData h = Ok None).
Proof.
  split.
  - intros best Hm. destruct (selected_is_candidate _ _ _ Hm) as [Hb _].
    apply generateCandidates_In in Hb. tauto.
  - intros k Honly. apply unmatchable_no_range.
    right. right. right. left.
    destruct (candidatesOf spanData h) as [|c cs] eqn:E; [reflexivity|].
    assert (Hc : In c (candidatesOf spanData h)) by (rewrite E; now left).
    apply generateCandidates_In in Hc as (Hs & He & Hlt & _).
    apply findWordInSpans_In in Hs as (sp1 & Hin1 & Hi1 & Hm1).
    apply findWordInSpans_In in He as (sp2 & Hin2 & Hi2 & Hm2).
    apply existsb_exists in Hm1 as (w1 & Hw1 & Hm1).
    apply existsb_exists in Hm2 as (w2 & Hw2 & Hm2).
    apply wordsMatch_spec in Hm1, Hm2.
    assert (index sp1 = k).
    { apply Honly; [assumption|]. left. exists w1. auto. }
    assert (index sp2 = k).
    { apply Honly; [assumption|]. right. exists w2. auto. }
    lia.
Qed.

Lemma selected_range_has_two_spans_witness :
  start (mkCandidate 1 3) < end_ (mkCandidate 1 3)
  /\ matchHighlight (spanDataOf ["privacy requires consent"])
       (highlightOf "privacy requires consent") = Ok None.
Proof.
  destruct (selected_range_has_two_spans (spanDataOf consentFragments)
              (highlightOf "privacy requires consent")) as [Hstrict _].
  destruct (selected_range_has_two_spans
              (spanDataOf ["privacy requires consent"])
              (highlightOf "privacy requires consent")) as [_ Hone].
  split.
  - apply (Hstrict (mkCandidate 1 3)). vm_compute. reflexivity.
  - apply (Hone 0). intros sp [<-|[]] _. reflexivity.
Defined.

(** ** C9: only the text of a highlight matters *)

(** C9: two highlights with the same text get the same result from
    [matchHighlight] on the same span data, whatever their page, id, summary
    and title; and a selected range can lie on a page other than the one the
    highlight declares (here a highlight declared for page 1 is placed on
    the spans of page 2). *)
Theorem range_depends_on_text_only :
  (forall spanData h1 h2,
     text h1 = text h2 ->
     matchHighlight spanData h1 = matchHighlight spanData h2)
  /\ (exists dom' best,
        page (highlightOf "data privacy") = 1
        /\ applyHighlights idle [highlightOf "data privacy"] twoPages
           = Ok (dom', [(highlightOf "data privacy", best)])
        /\ forall i info,
             start best <= i <= end_ best ->
             nth_error (collectSpans twoPages) i = Some info ->
             spanPageNum info = 2).
Proof.
  split.
  - intros spanData h1 h2 Htext. unfold matchHighlight. now rewrite Htext.
  - eexists. exists (mkCandidate 1 2).
    split; [reflexivity|]. split; [vm_compute; reflexivity|].
    intros i info Hi. simpl in Hi.
    assert (Hcases : i = 1 \/ i = 2) by lia.
    destruct Hcases as [-> | ->]; simpl; intros Hn; injection Hn as <-;
      reflexivity.
Qed.

Lemma range_depends_on_text_only_witness :
  matchHighlight (spanDataOf consentFragments)
    (mkHighlightData 1 "privacy requires consent" "first" "a" None)
  = matchHighlight (spanDataOf consentFragments)
      (mkHighlightData 7 "privacy requires consent" "second" "b"
         (Some "Consent")).
Proof.
  apply (proj1 range_depends_on_text_only). reflexivity.
Defined.

(** ** C10: a pass starts from a clean text layer *)

(** C10: a pass gives the same result on the text layer as on the text layer
    with every span cleared (background, border radius, cursor, tooltip
    text, the three [data-highlight-*] attributes and the three handlers);
    the ranges it selects are those [matchHighlight] finds for the current
    highlights on the current spans; and afterwards every span whose global
    index lies outside all the selected ranges is untagged, whatever tags it
    carried before the pass. *)
Theorem pass_clears_stale_highlights (st : ViewerState)
    (highlightData : list HighlightData) (dom dom' : list PageDom)
    (sel : list (HighlightData * Candidate)) :
  applyHighlights st highlightData dom = Ok (dom', sel) ->
  applyHighlights st highlightData (map clearPage dom) = Ok (dom', sel)
  /\ List.length (globalSpans dom') = List.length (globalSpans dom)
  /\ (forall h c,
        In (h, c) sel ->
        In h highlightData
        /\ matchHighlight (buildSpanData (collectSpans dom)) h = Ok (Some c))
  /\ (forall i el,
        nth_error (globalSpans dom') i = Some el ->
        (forall h c, In (h, c) sel -> ~ (start c <= i <= end_ c)) ->
        untagged el).
Proof.
  intros Hpass.
  destruct (applyHighlights_spec st highlightData dom)
    as (els & sel' & Heq & Hlen & Hsel & _ & Hout).
  rewrite Heq in Hpass. injection Hpass as <- <-.
  assert (Hread : globalSpans (storeSpans (map clearPage dom) els) = els).
  { apply globalSpans_store. now rewrite globalSpans_clear, length_map. }
  split; [|split; [|split]].
  - unfold applyHighlights in *. now rewrite clearPage_idem.
  - now rewrite Hread.
  - exact Hsel.
  - intros i el Hel Hfree. rewrite Hread, (Hout i Hfree) in Hel.
    apply nth_error_In, in_map_iff in Hel as [old [<- _]].
    apply clearSpan_untagged.
Qed.

Lemma pass_clears_stale_highlights_witness :
  untagged (nth 0 (globalSpans (map clearPage stalePage)) (plainSpan "")).
Proof.
  destruct (pass_clears_stale_highlights idle [highlightOf "data"] stalePage
              (map clearPage stalePage) [])
    as (_ & _ & _ & Hclean).
  - vm_compute. reflexivity.
  - apply (Hclean 0); [reflexivity|]. intros h c [].
Defined.

(** ** The scenarios of the specification *)

Example scenario_A :
  matchHighlight (spanDataOf consentFragments)
    (highlightOf "privacy requires consent")
  = Ok (Some (mkCandidate 1 3)).
Proof. vm_compute. reflexivity. Qed.

Example scenario_B :
  matchHighlight (spanDataOf consentFragments)
    (highlightOf "GDPR compliance mandate")
  = Ok None.
Proof. vm_compute. reflexivity. Qed.

Example scenario_C :
  matchHighlight (spanDataOf consentFragments) (highlightOf "data") = Ok None.
Proof. vm_compute. reflexivity. Qed.

Example scenario_D :
  matchHighlight (spanDataOf ["Export-controlled"; "information"])
    (highlightOf "export controlled information")
  = Ok (Some (mkCandidate 0 1)).
Proof. vm_compute. reflexivity. Qed.

Example scenario_E :
  matchHighlight (spanDataOf ("privacy" :: repeat "filler" 500 ++ ["consent"]))
    (highlightOf "privacy consent")
  = Ok None.
Proof. vm_compute. reflexivity. Qed.

Example split_keeps_empty_ends : split " a  b " = [""; "a"; "b"; ""].
Proof. vm_compute. reflexivity. Qed.

(** The three style properties that [clearSpan] does not reset keep the
    values of the last tagging. *)
Example cleared_span_keeps_transition_and_shadow :
  let el := clearSpan (tagSpan idle (highlightOf "old text here")
                         (plainSpan "fresh")) in
  untagged el
  /\ style_transition el = "all 0.2s ease"
  /\ style_transform el = "scale(1)"
  /\ style_boxShadow el = "none".
Proof. simpl. unfold untagged. simpl. repeat split. Qed.

(** * Further properties of the component *)

Import Viewer Compare.

(** ** Words *)

Lemma append_empty_r (s : string) : (s ++ "")%string = s.
Proof. induction s as [|c s IH]; simpl; congruence. Qed.

Lemma mapChars_app (f : ascii -> ascii) (a b : string) :
  mapChars f (a ++ b)%string = (mapChars f a ++ mapChars f b)%string.
Proof. induction a as [|c a IH]; simpl; [reflexivity|now rewrite IH]. Qed.

Lemma tokensFrom_separator (c : ascii) (b : string) :
  isSpace c = true ->
  forall a cur,
    tokensFrom cur (a ++ String c b)%string
    = tokensFrom cur a ++ tokensFrom EmptyString b.
Proof.
  intros Hc a. induction a as [|d a IH]; intros cur; simpl.
  - rewrite Hc. now destruct (isEmpty cur).
  - destruct (isSpace d).
    + destruct (isEmpty cur); simpl; now rewrite IH.
    + apply IH.
Qed.

Lemma separator_is_blanked (c : ascii) :
  isWordChar (toLowerChar c) = false ->
  isSpace (if isWordChar (toLowerChar c) then toLowerChar c else " "%char)
  = true.
Proof. intros H. now rewrite H. Qed.

Lemma extractWords_split_at (a b : string) (c : ascii) :
  isWordChar (toLowerChar c) = false ->
  extractWords (a ++ String c b)%string = extractWords a ++ extractWords b.
Proof.
  intros Hc. rewrite !extractWords_normalizeWith. unfold normalizeWith.
  unfold toLowerCase, tokens. rewrite !mapChars_app. simpl.
  rewrite tokensFrom_separator by now apply separator_is_blanked.
  apply filter_app.
Qed.

(** X1: a character that is not a word character after lower-casing
    separates words: the words of [a], that character, [b] are the words of
    [a] followed by the words of [b]; in particular no word runs across
    it. *)
Theorem extractWords_separator (a b : string) (c : ascii) :
  isWordChar (toLowerChar c) = false ->
  extractWords (a ++ String c b)%string = extractWords a ++ extractWords b
  /\ List.length (extractWords (a ++ String c b)%string)
     = List.length (extractWords a) + List.length (extractWords b).
Proof.
  intros Hc. rewrite (extractWords_split_at a b c Hc).
  split; [reflexivity|apply length_app].
Qed.

Lemma extractWords_separator_witness :
  extractWords ("privacy" ++ String "-"%char "consent")%string
  = extractWords "privacy" ++ extractWords "consent"
  /\ List.length (extractWords ("privacy" ++ String "-"%char "consent")%string)
     = List.length (extractWords "privacy")
       + List.length (extractWords "consent").
Proof.
  apply (extractWords_separator "privacy" "consent" "-"%char).
  vm_compute. reflexivity.
Defined.

Lemma lower_word_char_fixed (c : ascii) :
  isLowerWordChar c = true ->
  toLowerChar c = c /\ isWordChar c = true /\ isSpace c = false.
Proof. by_cases_on_char c. Qed.

Lemma toLowerChar_idem (c : ascii) : toLowerChar (toLowerChar c) = toLowerChar c.
Proof. by_cases_on_char c. Qed.

Lemma mapChars_fixed (f : ascii -> ascii) (p : ascii -> bool) (w : string) :
  (forall c, p c = true -> f c = c) ->
  allChars p w = true -> mapChars f w = w.
Proof.
  intros Hf. induction w as [|c w IH]; simpl; [reflexivity|].
  intros H. apply andb_true_iff in H as [Hc Hw].
  now rewrite (Hf c Hc), IH.
Qed.

Lemma tokensFrom_one_run (w : string) :
  allChars isLowerWordChar w = true ->
  forall cur,
    tokensFrom cur w
    = if isEmpty (cur ++ w)%string then [] else [(cur ++ w)%string].
Proof.
  induction w as [|c w IH]; simpl; intros Hw cur.
  - now rewrite append_empty_r.
  - apply andb_true_iff in Hw as [Hc Hw].
    destruct (lower_word_char_fixed c Hc) as (_ & _ & Hsp). rewrite Hsp.
    rewrite (IH Hw).
    replace ((cur ++ String c "") ++ w)%string with (cur ++ String c w)%string;
      [reflexivity|].
    clear. induction cur as [|d cur IH]; simpl; congruence.
Qed.

Lemma extractWords_one_word (w : string) :
  3 <= String.length w -> allChars isLowerWordChar w = true ->
  extractWords w = [w].
Proof.
  intros Hlen Hw. rewrite extractWords_normalizeWith. unfold normalizeWith.
  unfold toLowerCase.
  rewrite (mapChars_fixed toLowerChar isLowerWordChar w)
    by (try assumption; intros c Hc; now apply lower_word_char_fixed).
  rewrite (mapChars_fixed _ isLowerWordChar w); [|
    intros c Hc; destruct (lower_word_char_fixed c Hc) as (_ & -> & _);
    reflexivity|assumption].
  unfold tokens. rewrite (tokensFrom_one_run w Hw). simpl.
  destruct w as [|c w]; [simpl in Hlen; lia|]. simpl.
  destruct (Nat.ltb_spec (S (String.length w)) 3); [simpl in Hlen; lia|].
  reflexivity.
Qed.

Lemma extractWords_joinWords (ws : list string) :
  Forall (fun w => 3 <= String.length w /\ allChars isLowerWordChar w = true)
         ws ->
  extractWords (joinWords ws) = ws.
Proof.
  induction 1 as [|w rest [Hlen Hw] Hrest IH]; [reflexivity|].
  destruct rest as [|w' rest].
  - now apply extractWords_one_word.
  - change (joinWords (w :: w' :: rest))
      with (w ++ String " "%char (joinWords (w' :: rest)))%string.
    rewrite extractWords_split_at by reflexivity.
    now rewrite IH, extractWords_one_word.
Qed.

(** X2: normalization is a projection: the words extracted from the words
    of a text joined by single spaces are those words again; and it ignores
    case: lower-casing a text first does not change its words. *)
Theorem extractWords_round_trip (text : string) :
  extractWords (joinWords (extractWords text)) = extractWords text
  /\ extractWords (toLowerCase text) = extractWords text.
Proof.
  split.
  - apply extractWords_joinWords, extractWords_tokens.
  - unfold extractWords, toLowerCase. f_equal. f_equal. f_equal.
    induction text as [|c t IH]; simpl; [reflexivity|].
    now rewrite toLowerChar_idem, IH.
Qed.

(** X3: [wordsMatch] holds exactly when one of the two words occurs inside
    the other; it is reflexive and symmetric, and the empty word matches
    every word. *)
Theorem wordsMatch_two_way_containment (a b : string) :
  (wordsMatch a b = true <-> Substring a b \/ Substring b a)
  /\ wordsMatch a a = true
  /\ wordsMatch a b = wordsMatch b a
  /\ wordsMatch a "" = true.
Proof.
  split; [apply wordsMatch_spec|]. split; [|split].
  - apply wordsMatch_spec. left. exists EmptyString, EmptyString.
    simpl. now rewrite append_empty_r.
  - unfold wordsMatch. apply orb_comm.
  - apply wordsMatch_spec. right. exists EmptyString, a. reflexivity.
Qed.

(** X4: the words of fragment texts joined by single spaces (the text
    snippet of a range) are the words of the fragments, in order. *)
Theorem snippet_words (texts : list string) :
  extractWords (joinWords texts) = flat_map extractWords texts.
Proof.
  induction texts as [|t rest IH]; [reflexivity|].
  destruct rest as [|t' rest].
  - simpl. now rewrite app_nil_r.
  - change (joinWords (t :: t' :: rest))
      with (t ++ String " "%char (joinWords (t' :: rest)))%string.
    rewrite extractWords_split_at by reflexivity.
    now rewrite IH.
Qed.

(** ** Positions *)

Lemma findWordInSpans_filter (w : string) (spanData : list SpanDatum)
    (afterIndex : Z) (beforeIndex : bound) :
  findWordInSpans w spanData afterIndex beforeIndex
  = filter (fun i => negb ((Z.of_nat i <=? afterIndex)%Z
                           || reaches i beforeIndex))
           (findWordInSpans w spanData (-1) Infinity).
Proof.
  induction spanData as [|sp rest IH]; simpl; [reflexivity|].
  replace (Z.of_nat (index sp) <=? -1)%Z with false
    by (symmetry; apply Z.leb_gt; lia).
  simpl. rewrite IH.
  destruct (existsb (fun x => wordsMatch x w) (words sp)); simpl;
    destruct ((Z.of_nat (index sp) <=? afterIndex)%Z
              || reaches (index sp) beforeIndex); reflexivity.
Qed.

Lemma buildSpanData_In (allSpans : list SpanInfo) (sp : SpanDatum) :
  In sp (buildSpanData allSpans)
  <-> exists info, nth_error allSpans (index sp) = Some info
                   /\ words sp = extractWords (textContent (span info)).
Proof.
  split.
  - intros Hin. apply In_nth_error in Hin as [i Hi].
    rewrite buildSpanData_nth_error in Hi.
    destruct (nth_error allSpans i) as [info|] eqn:E; [|discriminate].
    injection Hi as <-. simpl. eauto.
  - intros [info [Hn Hw]]. apply (nth_error_In _ (index sp)).
    rewrite buildSpanData_nth_error, Hn. simpl. rewrite <- Hw.
    now destruct sp.
Qed.

Lemma positions_on_text_layer (allSpans : list SpanInfo) (w : string)
    (i : nat) :
  In i (findWordInSpans w (buildSpanData allSpans) (-1) Infinity)
  <-> exists info x,
        nth_error allSpans i = Some info
        /\ In x (extractWords (textContent (span info)))
        /\ LooseMatch x w.
Proof.
  rewrite findWordInSpans_In. split.
  - intros (sp & Hin & <- & Hm).
    apply buildSpanData_In in Hin as (info & Hn & Hw).
    apply existsb_exists in Hm as (x & Hx & Hm).
    exists info, x. rewrite <- Hw, <- wordsMatch_spec. auto.
  - intros (info & x & Hn & Hx & Hm).
    exists (mkSpanDatum i (extractWords (textContent (span info)))).
    split; [apply buildSpanData_In; simpl; eauto|].
    split; [reflexivity|]. simpl.
    apply existsb_exists. exists x. rewrite wordsMatch_spec. auto.
Qed.

(** X5: the optional bounds of [findWordInSpans] only filter its result:
    with bounds it returns the positions found without bounds that lie
    strictly after [afterIndex] and strictly before [beforeIndex], in the
    same order. *)
Theorem findWordInSpans_window (w : string) (spanData : list SpanDatum)
    (afterIndex : Z) (beforeIndex : bound) :
  findWordInSpans w spanData afterIndex beforeIndex
  = filter (fun i => negb ((Z.of_nat i <=? afterIndex)%Z
                           || reaches i beforeIndex))
           (findWordInSpans w spanData (-1) Infinity)
  /\ forall i,
       In i (findWordInSpans w spanData afterIndex beforeIndex)
       <-> In i (findWordInSpans w spanData (-1) Infinity)
           /\ (afterIndex < Z.of_nat i)%Z
           /\ match beforeIndex with
              | Finite n => (Z.of_nat i < n)%Z
              | Infinity => True
              end.
Proof.
  split; [apply findWordInSpans_filter|].
  intros i. rewrite findWordInSpans_filter, filter_In.
  rewrite negb_true_iff, orb_false_iff, Z.leb_gt.
  destruct beforeIndex as [n|]; simpl; [rewrite Z.leb_gt|]; tauto.
Qed.

(** X6: on the span data of a text layer, [findWordInSpans] returns, in
    strictly increasing order, exactly the global indices within the bounds
    of the spans one of whose extracted words loose-matches the word. *)
Theorem findWordInSpans_on_text_layer (allSpans : list SpanInfo) (w : string)
    (afterIndex : Z) (beforeIndex : bound) :
  StronglySorted lt
    (findWordInSpans w (buildSpanData allSpans) afterIndex beforeIndex)
  /\ forall i,
       In i (findWordInSpans w (buildSpanData allSpans) afterIndex beforeIndex)
       <-> (afterIndex < Z.of_nat i)%Z
           /\ reaches i beforeIndex = false
           /\ exists info x,
                nth_error allSpans i = Some info
                /\ In x (extractWords (textContent (span info)))
                /\ LooseMatch x w.
Proof.
  split; [apply findWordInSpans_sorted, buildSpanData_sorted|].
  intros i. rewrite findWordInSpans_filter, filter_In, positions_on_text_layer.
  rewrite negb_true_iff, orb_false_iff, Z.leb_gt. tauto.
Qed.

(** ** Selection *)

Lemma best_is_least (spanData : list SpanDatum) (h : HighlightData)
    (best c : Candidate) :
  matchHighlight spanData h = Ok (Some best) ->
  In c (candidatesOf spanData h) -> survives spanData h c = true ->
  (spanLength best <= spanLength c)%Z.
Proof.
  intros Hm Hc Hsurv.
  apply matchHighlight_selected in Hm as [_ [rest Hf]].
  pose proof (sort_sorted spanLength spanCompare spanCompare_key
                (candidatesOf spanData h)) as Hsorted.
  destruct (filter_head_least _ _ _ _ _ Hsorted Hf c) as [->|Hle];
    [now apply sort_In|assumption|lia|exact Hle].
Qed.

Lemma survivor_gets_selected (spanData : list SpanDatum) (h : HighlightData)
    (c : Candidate) :
  2 <= List.length (extractWords (text h)) ->
  In c (candidatesOf spanData h) -> survives spanData h c = true ->
  exists best, matchHighlight spanData h = Ok (Some best).
Proof.
  intros Hlen Hc Hsurv. rewrite matchHighlight_eq.
  destruct (Nat.ltb_spec (List.length (extractWords (text h))) 2); [lia|].
  destruct (filter _ (sort _ _)) as [|b bs] eqn:Ef; [|now exists b].
  assert (Hin : In c (filter (survives spanData h)
                        (sort spanCompare (candidatesOf spanData h)))).
  { apply filter_In. split; [now apply sort_In|assumption]. }
  rewrite Ef in Hin. destruct Hin.
Qed.

(** X7: a range is selected exactly when the highlight has at least two
    extracted words and some candidate range contains all its words: the
    matcher never misses an existing candidate. *)
Theorem selection_is_complete (spanData : list SpanDatum) (h : HighlightData) :
  (exists best, matchHighlight spanData h = Ok (Some best))
  <-> 2 <= List.length (extractWords (text h))
      /\ exists c, In c (candidatesOf spanData h)
                   /\ survives spanData h c = true.
Proof.
  split.
  - intros [best Hm]. split; [now apply matchHighlight_selected in Hm|].
    exists best. now apply selected_is_candidate.
  - intros [Hlen [c [Hc Hs]]]. now apply (survivor_gets_selected _ _ c).
Qed.

Lemma selected_in_bounds (allSpans : list SpanInfo) (h : HighlightData)
    (best : Candidate) :
  matchHighlight (buildSpanData allSpans) h = Ok (Some best) ->
  end_ best < List.length allSpans.
Proof.
  intros Hm. destruct (selected_is_candidate _ _ _ Hm) as [Hb _].
  apply generateCandidates_In in Hb as (_ & He & _).
  apply positions_on_text_layer in He as (info & _ & Hn & _).
  apply nth_error_Some. congruence.
Qed.

(** X8: a selected range lies within the text layer; its first span has a
    word that loose-matches the first extracted word of the highlight, and
    its last span one that loose-matches the last extracted word. *)
Theorem selected_range_endpoints (allSpans : list SpanInfo)
    (h : HighlightData) (best : Candidate) :
  matchHighlight (buildSpanData allSpans) h = Ok (Some best) ->
  end_ best < List.length allSpans
  /\ (exists info x,
        nth_error allSpans (start best) = Some info
        /\ In x (extractWords (textContent (span info)))
        /\ LooseMatch x (firstWordOf h))
  /\ (exists info x,
        nth_error allSpans (end_ best) = Some info
        /\ In x (extractWords (textContent (span info)))
        /\ LooseMatch x (lastWordOf h)).
Proof.
  intros Hm. split; [now apply selected_in_bounds in Hm|].
  destruct (selected_is_candidate _ _ _ Hm) as [Hb _].
  apply generateCandidates_In in Hb as (Hs & He & _).
  split; now apply positions_on_text_layer.
Qed.

Lemma selected_range_endpoints_witness :
  end_ (mkCandidate 1 3) < List.length (collectSpans [plainPage 1 consentFragments])
  /\ (exists info x,
        nth_error (collectSpans [plainPage 1 consentFragments])
                  (start (mkCandidate 1 3)) = Some info
        /\ In x (extractWords (textContent (span info)))
        /\ LooseMatch x (firstWordOf (highlightOf "privacy requires consent")))
  /\ (exists info x,
        nth_error (collectSpans [plainPage 1 consentFragments])
                  (end_ (mkCandidate 1 3)) = Some info
        /\ In x (extractWords (textContent (span info)))
        /\ LooseMatch x (lastWordOf (highlightOf "privacy requires consent"))).
Proof.
  apply (selected_range_endpoints (collectSpans [plainPage 1 consentFragments])
           (highlightOf "privacy requires consent") (mkCandidate 1 3)).
  vm_compute. reflexivity.
Defined.

(** ** More spans *)

Lemma mapiFrom_app {A B : Type} (f : A -> nat -> B) (a b : list A) (k : nat) :
  mapiFrom k f (a ++ b) = mapiFrom k f a ++ mapiFrom (k + List.length a) f b.
Proof.
  revert k. induction a as [|x a IH]; intros k; simpl.
  - now rewrite Nat.add_0_r.
  - rewrite IH. now rewrite Nat.add_succ_r.
Qed.

Lemma findWordInSpans_app (w : string) (l1 l2 : list SpanDatum) (a : Z)
    (b : bound) :
  findWordInSpans w (l1 ++ l2) a b
  = findWordInSpans w l1 a b ++ findWordInSpans w l2 a b.
Proof.
  induction l1 as [|sp l1 IH]; simpl; [reflexivity|].
  rewrite IH.
  destruct ((Z.of_nat (index sp) <=? a)%Z || reaches (index sp) b);
    [reflexivity|].
  now destruct (existsb (fun x => wordsMatch x w) (words sp)).
Qed.

Lemma candidates_kept (sd ext : list SpanDatum) (h : HighlightData)
    (c : Candidate) :
  In c (candidatesOf sd h) -> survives sd h c = true ->
  In c (candidatesOf (sd ++ ext) h) /\ survives (sd ++ ext) h c = true.
Proof.
  unfold candidatesOf, startPositionsOf, endPositionsOf, survives.
  intros Hc Hs. split.
  - apply generateCandidates_In in Hc as (H1 & H2 & H3 & H4).
    apply generateCandidates_In. rewrite !findWordInSpans_app, !in_app_iff.
    auto.
  - rewrite containsAllWords_spec in *. intros word Hw.
    destruct (Hs word Hw) as (i & sp & rw & Hi & Hn & Hrest).
    exists i, sp, rw. split; [assumption|]. split; [|assumption].
    rewrite nth_error_app1; [assumption|].
    apply nth_error_Some. congruence.
Qed.

(** X9: spans added after the existing ones (a further page finished
    rendering) never lose a highlight: a highlight that had a range still
    gets one, and it is not longer than before. *)
Theorem more_spans_keep_match (allSpans more : list SpanInfo)
    (h : HighlightData) (best : Candidate) :
  matchHighlight (buildSpanData allSpans) h = Ok (Some best) ->
  exists best',
    matchHighlight (buildSpanData (allSpans ++ more)) h = Ok (Some best')
    /\ end_ best' - start best' <= end_ best - start best.
Proof.
  intros Hm.
  assert (Hsd : buildSpanData (allSpans ++ more)
                = buildSpanData allSpans
                  ++ mapiFrom (List.length allSpans)
                       (fun spanInfo idx =>
                          mkSpanDatum idx
                            (extractWords (textContent (span spanInfo))))
                       more).
  { unfold buildSpanData, mapi. now rewrite mapiFrom_app. }
  rewrite Hsd.
  destruct (selected_is_candidate _ _ _ Hm) as [Hb Hs].
  destruct (candidates_kept _ (mapiFrom (List.length allSpans)
                                 (fun spanInfo idx =>
                                    mkSpanDatum idx
                                      (extractWords
                                         (textContent (span spanInfo))))
                                 more) _ _ Hb Hs) as [Hb' Hs'].
  apply matchHighlight_selected in Hm as [Hlen _].
  destruct (survivor_gets_selected _ _ _ Hlen Hb' Hs') as [best' Hm'].
  exists best'. split; [assumption|].
  pose proof (best_is_least _ _ _ _ Hm' Hb' Hs') as Hle.
  destruct (selected_is_candidate _ _ _ Hm') as [Hc' _].
  apply generateCandidates_In in Hc' as (_ & _ & Hlt' & _).
  apply generateCandidates_In in Hb as (_ & _ & Hlt & _).
  unfold spanLength in Hle. lia.
Qed.

Lemma more_spans_keep_match_witness :
  exists best',
    matchHighlight
      (buildSpanData (collectSpans [plainPage 1 consentFragments]
                      ++ collectSpans [plainPage 2 ["privacy"; "consent"]]))
      (highlightOf "privacy requires consent") = Ok (Some best')
    /\ end_ best' - start best'
       <= end_ (mkCandidate 1 3) - start (mkCandidate 1 3).
Proof.
  apply (more_spans_keep_match (collectSpans [plainPage 1 consentFragments])
           (collectSpans [plainPage 2 ["privacy"; "consent"]])
           (highlightOf "privacy requires consent") (mkCandidate 1 3)).
  vm_compute. reflexivity.
Defined.

(** ** The pass on the text layer *)

Lemma updateAt_same {A : Type} (f : A -> A) (l : list A) (i : nat) :
  nth_error (updateAt i f l) i = option_map f (nth_error l i).
Proof.
  revert i. induction l as [|a l IH]; intros [|i]; simpl; auto.
Qed.

Lemma updateAll_inside {A : Type} (f : A -> A) (idxs : list nat) (i : nat) :
  NoDup idxs -> In i idxs ->
  forall l,
    nth_error (fold_left (fun els i => updateAt i f els) idxs l) i
    = option_map f (nth_error l i).
Proof.
  induction 1 as [|j idxs Hj Hnd IH]; intros Hin l; [destruct Hin|].
  simpl. destruct Hin as [->|Hin].
  - rewrite updateAll_other by assumption. apply updateAt_same.
  - rewrite (IH Hin). f_equal. apply updateAt_other.
    intros ->. contradiction.
Qed.

Lemma tagRange_inside (st : ViewerState) (h : HighlightData) (c : Candidate)
    (els : list HTMLElement) (i : nat) :
  start c <= i <= end_ c ->
  nth_error (tagRange st h c els) i
  = option_map (tagSpan st h) (nth_error els i).
Proof.
  intros Hi. apply updateAll_inside; [apply seq_NoDup|].
  apply in_seq. lia.
Qed.

Lemma updateAt_texts (f : HTMLElement -> HTMLElement) (l : list HTMLElement)
    (i : nat) :
  (forall el, textContent (f el) = textContent el) ->
  map textContent (updateAt i f l) = map textContent l.
Proof.
  intros Hf. revert i. induction l as [|a l IH]; intros [|i]; simpl;
    try reflexivity.
  - now rewrite Hf.
  - now rewrite IH.
Qed.

Lemma tagRange_texts (st : ViewerState) (h : HighlightData) (c : Candidate)
    (els : list HTMLElement) :
  map textContent (tagRange st h c els) = map textContent els.
Proof.
  unfold tagRange. generalize (seq (start c) (S (end_ c) - start c)).
  intros idxs. revert els.
  induction idxs as [|i idxs IH]; intros els; simpl; [reflexivity|].
  rewrite IH. now apply updateAt_texts.
Qed.

Lemma forEachHighlight_texts (st : ViewerState) (spanData : list SpanDatum)
    (highlightData : list HighlightData) :
  forall els sel r,
    forEachHighlight st spanData highlightData els sel = Ok r ->
    map textContent (fst r) = map textContent els.
Proof.
  induction highlightData as [|h rest IH]; intros els sel r; simpl.
  - intros H. injection H as <-. reflexivity.
  - destruct (matchHighlight spanData h) as [[best|]|]; simpl;
      [|apply IH|discriminate].
    intros H. apply IH in H. now rewrite H, tagRange_texts.
Qed.

(** The last selected range that covers a span decides its tag. *)
Lemma forEachHighlight_last (st : ViewerState) (spanData : list SpanDatum)
    (highlightData : list HighlightData) :
  forall els sel els' sel',
    forEachHighlight st spanData highlightData els sel = Ok (els', sel') ->
    exists new,
      sel' = sel ++ new
      /\ forall n1 h c n2 i,
           new = n1 ++ (h, c) :: n2 ->
           start c <= i <= end_ c ->
           (forall h' c', In (h', c') n2 -> ~ (start c' <= i <= end_ c')) ->
           i < List.length els ->
           exists e0, nth_error els' i = Some (tagSpan st h e0).
Proof.
  induction highlightData as [|h0 rest IH]; intros els sel els' sel'; simpl.
  - intros H. injection H as <- <-. exists []. rewrite app_nil_r.
    split; [reflexivity|]. intros [|x n1] h c n2 i Hnew; discriminate.
  - destruct (matchHighlight spanData h0) as [[best|]|] eqn:E; simpl;
      [|apply IH|discriminate].
    intros Hrun.
    destruct (IH _ _ _ _ Hrun) as (new' & -> & Hlast).
    exists ((h0, best) :: new'). rewrite <- app_assoc.
    split; [reflexivity|].
    intros [|x n1] h c n2 i Hnew Hi Hfree Hlen.
    + simpl in Hnew. injection Hnew as Hh Hc Hn. subst h0 best new'.
      destruct (forEachHighlight_spec st spanData rest
                  (tagRange st h c els) (sel ++ [(h, c)]))
        as (els'' & new'' & Hrun' & _ & _ & Hout).
      rewrite Hrun in Hrun'. injection Hrun' as <- Hsel.
      apply app_inv_head in Hsel. subst new''.
      rewrite (Hout i Hfree), (tagRange_inside _ _ _ _ _ Hi).
      destruct (nth_error els i) as [e|] eqn:En; [now exists e|].
      apply nth_error_None in En. lia.
    + simpl in Hnew. injection Hnew as _ Hn. subst new'.
      apply (Hlast n1 h c n2 i eq_refl Hi Hfree).
      now rewrite tagRange_length.
Qed.

(** The two runs of the loop on two text layers with the same words: they
    select the same ranges, and a relation that every tagging establishes
    holds between the results. *)
Lemma forEachHighlight_two_runs (R : HTMLElement -> HTMLElement -> Prop)
    (st1 st2 : ViewerState) (spanData : list SpanDatum)
    (highlightData : list HighlightData) :
  (forall h a b, In h highlightData -> R (tagSpan st1 h a) (tagSpan st2 h b)) ->
  forall els1 els2 sel r1 r2,
    Forall2 R els1 els2 ->
    forEachHighlight st1 spanData highlightData els1 sel = Ok r1 ->
    forEachHighlight st2 spanData highlightData els2 sel = Ok r2 ->
    Forall2 R (fst r1) (fst r2) /\ snd r1 = snd r2.
Proof.
  induction highlightData as [|h rest IH]; intros Htag els1 els2 sel r1 r2 HR;
    simpl.
  - intros H1 H2. injection H1 as <-. injection H2 as <-. auto.
  - destruct (matchHighlight spanData h) as [[best|]|]; simpl;
      [| |discriminate].
    + apply IH; [intros; apply Htag; now right|].
      unfold tagRange. generalize (seq (start best) (S (end_ best) - start best)).
      intros idxs. revert els1 els2 HR.
      induction idxs as [|i idxs IHi]; intros els1 els2 HR; simpl;
        [assumption|].
      apply IHi. clear IHi. revert i.
      induction HR as [|a b l1 l2 Hab Hl IHl]; intros [|i]; simpl;
        constructor; auto.
      apply Htag. now left.
    + apply IH; [intros; apply Htag; now right|assumption].
Qed.

(** The pass, opened up: either there is no span, or the loop ran on the
    cleared spans and its elements are the spans of the result. *)
Lemma applyHighlights_inv (st : ViewerState)
    (highlightData : list HighlightData) (dom dom' : list PageDom)
    (sel : list (HighlightData * Candidate)) :
  applyHighlights st highlightData dom = Ok (dom', sel) ->
  (globalSpans dom = [] /\ dom' = map clearPage dom /\ sel = [])
  \/ (globalSpans dom <> []
      /\ forEachHighlight st (buildSpanData (collectSpans dom)) highlightData
           (map clearSpan (globalSpans dom)) []
         = Ok (globalSpans dom', sel)
      /\ dom' = storeSpans (map clearPage dom) (globalSpans dom')
      /\ List.length (globalSpans dom') = List.length (globalSpans dom)).
Proof.
  unfold applyHighlights.
  destruct (Nat.eqb_spec (List.length (collectSpans (map clearPage dom))) 0)
    as [Hz|Hnz].
  - intros H. injection H as <- <-. left.
    rewrite collectSpans_length, globalSpans_clear, length_map in Hz.
    apply length_zero_iff_nil in Hz. auto.
  - rewrite buildSpanData_clear.
    fold (globalSpans (map clearPage dom)). rewrite globalSpans_clear.
    destruct (forEachHighlight st _ highlightData _ []) as [[els' sel']|] eqn:E;
      simpl; [|discriminate].
    intros H. injection H as <- <-. right.
    destruct (forEachHighlight_spec st (buildSpanData (collectSpans dom))
                highlightData (map clearSpan (globalSpans dom)) [])
      as (els'' & new & Hrun & Hlen & _).
    rewrite E in Hrun. injection Hrun as -> _.
    rewrite length_map in Hlen.
    assert (Hread : globalSpans (storeSpans (map clearPage dom) els'') = els'').
    { apply globalSpans_store. now rewrite globalSpans_clear, length_map. }
    rewrite Hread. repeat split; auto.
    intros Hnil. apply Hnz.
    now rewrite collectSpans_length, globalSpans_clear, Hnil.
Qed.

Lemma storeSpans_pages (dom : list PageDom) :
  forall els,
    List.length els = List.length (globalSpans dom) ->
    map pageNum (storeSpans dom els) = map pageNum dom
    /\ map (fun p => option_map (@List.length _) (textSpans p))
           (storeSpans dom els)
       = map (fun p => option_map (@List.length _) (textSpans p)) dom.
Proof.
  induction dom as [|p dom IH]; intros els Hlen; [auto|].
  rewrite globalSpans_cons, length_app in Hlen. simpl.
  destruct (textSpans p) as [old|] eqn:E; simpl.
  - destruct (IH (skipn (List.length old) els)) as [H1 H2];
      [rewrite length_skipn; lia|].
    rewrite H1, H2. simpl. rewrite length_firstn.
    split; [reflexivity|]. do 2 f_equal. lia.
  - destruct (IH els) as [H1 H2]; [simpl in Hlen; lia|].
    rewrite H1, H2, E. auto.
Qed.

(** X10: the pass only restyles: it keeps the pages, the number of spans of
    each page, and the text of every span. *)
Theorem pass_keeps_text_and_structure (st : ViewerState)
    (highlightData : list HighlightData) (dom dom' : list PageDom)
    (sel : list (HighlightData * Candidate)) :
  applyHighlights st highlightData dom = Ok (dom', sel) ->
  map pageNum dom' = map pageNum dom
  /\ map (fun p => option_map (@List.length _) (textSpans p)) dom'
     = map (fun p => option_map (@List.length _) (textSpans p)) dom
  /\ map textContent (globalSpans dom') = map textContent (globalSpans dom).
Proof.
  intros Hpass.
  assert (Hclear : map textContent (globalSpans (map clearPage dom))
                   = map textContent (globalSpans dom)).
  { rewrite globalSpans_clear, map_map. reflexivity. }
  assert (Hpages : forall els,
            List.length els = List.length (globalSpans dom) ->
            map pageNum (storeSpans (map clearPage dom) els) = map pageNum dom
            /\ map (fun p => option_map (@List.length _) (textSpans p))
                   (storeSpans (map clearPage dom) els)
               = map (fun p => option_map (@List.length _) (textSpans p)) dom).
  { intros els Hlen.
    destruct (storeSpans_pages (map clearPage dom) els) as [H1 H2].
    - now rewrite globalSpans_clear, length_map.
    - rewrite H1, H2, !map_map. split; [reflexivity|].
      apply map_ext. intros [n [l|]]; simpl; [|reflexivity].
      now rewrite length_map. }
  apply applyHighlights_inv in Hpass
    as [(Hnil & -> & _)|(_ & Hrun & Hdom & Hlen)].
  - destruct (Hpages (globalSpans (map clearPage dom))) as [H1 H2].
    + now rewrite globalSpans_clear, length_map.
    + rewrite storeSpans_same in H1, H2. auto.
  - destruct (Hpages _ Hlen) as [H1 H2]. rewrite <- Hdom in H1, H2.
    split; [assumption|]. split; [assumption|].
    apply forEachHighlight_texts in Hrun. simpl in Hrun.
    rewrite Hrun, map_map. reflexivity.
Qed.

Lemma pass_keeps_text_and_structure_witness :
  map pageNum (map clearPage stalePage) = map pageNum stalePage
  /\ map (fun p => option_map (@List.length _) (textSpans p))
         (map clearPage stalePage)
     = map (fun p => option_map (@List.length _) (textSpans p)) stalePage
  /\ map textContent (globalSpans (map clearPage stalePage))
     = map textContent (globalSpans stalePage).
Proof.
  apply (pass_keeps_text_and_structure idle [highlightOf "data"] stalePage
           (map clearPage stalePage) []).
  vm_compute. reflexivity.
Defined.

(** X11: after a pass every span of a selected range is tagged, and where
    selected ranges overlap the last one applied wins: the span carries the
    id and summary of that highlight and the handlers bound to it. *)
Theorem last_selected_range_tags_span (st : ViewerState)
    (highlightData : list HighlightData) (dom dom' : list PageDom)
    (sel s1 s2 : list (HighlightData * Candidate))
    (h : HighlightData) (c : Candidate) (i : nat) :
  applyHighlights st highlightData dom = Ok (dom', sel) ->
  sel = s1 ++ (h, c) :: s2 ->
  start c <= i <= end_ c ->
  (forall h' c', In (h', c') s2 -> ~ (start c' <= i <= end_ c')) ->
  exists el,
    nth_error (globalSpans dom') i = Some el
    /\ dataset_highlightId el = Some (id h)
    /\ dataset_highlightSummary el = Some (summary h)
    /\ onclick el = Some (SelectHighlight h)
    /\ onmouseenter el = Some (ShowTooltip h)
    /\ onmouseleave el = Some HideTooltip
    /\ style_cursor el = "pointer".
Proof.
  intros Hpass Hsel Hi Hfree.
  destruct (applyHighlights_spec st highlightData dom)
    as (els0 & sel0 & Heq & _ & Hmatched & _).
  rewrite Hpass in Heq. injection Heq as _ <-.
  assert (Hc : matchHighlight (buildSpanData (collectSpans dom)) h
               = Ok (Some c)).
  { apply Hmatched. rewrite Hsel. apply in_elt. }
  apply selected_in_bounds in Hc. rewrite collectSpans_length in Hc.
  apply applyHighlights_inv in Hpass
    as [(_ & _ & Hnil)|(_ & Hrun & _ & Hlen)].
  - rewrite Hnil in Hsel. destruct s1; discriminate.
  - destruct (forEachHighlight_last _ _ _ _ _ _ _ Hrun) as (new & Hnew & Hlast).
    simpl in Hnew. subst new.
    destruct (Hlast s1 h c s2 i Hsel Hi Hfree) as [e0 He0];
      [rewrite length_map; lia|].
    exists (tagSpan st h e0). split; [assumption|]. simpl. repeat split.
Qed.

Lemma last_selected_range_tags_span_witness :
  exists el,
    nth_error
      (globalSpans
         (match applyHighlights idle [highlightOf "data privacy"] twoPages with
          | Ok r => fst r
          | TypeError => []
          end)) 2 = Some el
    /\ dataset_highlightId el = Some (id (highlightOf "data privacy"))
    /\ dataset_highlightSummary el = Some (summary (highlightOf "data privacy"))
    /\ onclick el = Some (SelectHighlight (highlightOf "data privacy"))
    /\ onmouseenter el = Some (ShowTooltip (highlightOf "data privacy"))
    /\ onmouseleave el = Some HideTooltip
    /\ style_cursor el = "pointer".
Proof.
  apply (last_selected_range_tags_span idle [highlightOf "data privacy"]
           twoPages _ [(highlightOf "data privacy", mkCandidate 1 2)] [] []
           (highlightOf "data privacy") (mkCandidate 1 2) 2).
  - vm_compute. reflexivity.
  - reflexivity.
  - simpl. lia.
  - intros h' c' [].
Defined.

Lemma Forall2_trivial {A B : Type} (l1 : list A) (l2 : list B) :
  List.length l1 = List.length l2 -> Forall2 (fun _ _ => True) l1 l2.
Proof.
  revert l2. induction l1 as [|a l1 IH]; intros [|b l2] H; simpl in H;
    try discriminate; constructor; auto.
Qed.

(** X12: the ranges a pass selects depend only on the texts of the spans in
    global order: not on how the spans are divided into pages, not on the
    highlight state the spans carry, and not on the hover and selection
    state of the viewer. *)
Theorem ranges_depend_on_texts_only (st1 st2 : ViewerState)
    (highlightData : list HighlightData) (dom1 dom2 dom1' dom2' : list PageDom)
    (sel1 sel2 : list (HighlightData * Candidate)) :
  map textContent (globalSpans dom1) = map textContent (globalSpans dom2) ->
  applyHighlights st1 highlightData dom1 = Ok (dom1', sel1) ->
  applyHighlights st2 highlightData dom2 = Ok (dom2', sel2) ->
  sel1 = sel2.
Proof.
  intros Htexts H1 H2.
  assert (Hlen : List.length (globalSpans dom1) = List.length (globalSpans dom2)).
  { rewrite <- (length_map textContent (globalSpans dom1)), Htexts.
    apply length_map. }
  assert (Hsd : buildSpanData (collectSpans dom1)
                = buildSpanData (collectSpans dom2)).
  { apply buildSpanData_texts. rewrite <- !(map_map span textContent).
    exact Htexts. }
  apply applyHighlights_inv in H1 as [(Hn1 & _ & ->)|(Hne1 & Hrun1 & _)];
    apply applyHighlights_inv in H2 as [(Hn2 & _ & ->)|(Hne2 & Hrun2 & _)].
  - reflexivity.
  - rewrite Hn1 in Hlen. symmetry in Hlen.
    apply length_zero_iff_nil in Hlen. contradiction.
  - rewrite Hn2 in Hlen. apply length_zero_iff_nil in Hlen. contradiction.
  - rewrite Hsd in Hrun1.
    assert (HR : Forall2 (fun _ _ : HTMLElement => True)
                   (map clearSpan (globalSpans dom1))
                   (map clearSpan (globalSpans dom2)))
      by (apply Forall2_trivial; now rewrite !length_map).
    destruct (forEachHighlight_two_runs (fun _ _ => True) st1 st2 _ _
                (fun _ _ _ _ => I) _ _ _ _ _ HR Hrun1 Hrun2) as [_ Hs].
    exact Hs.
Qed.

Lemma ranges_depend_on_texts_only_witness :
  [(highlightOf "data privacy", mkCandidate 1 2)]
  = [(highlightOf "data privacy", mkCandidate 1 2)].
Proof.
  apply (ranges_depend_on_texts_only idle
           (mkViewerState (Some "h1") None (Some "h1"))
           [highlightOf "data privacy"]
           twoPages [plainPage 5 ["intro"; "data"; "privacy"]]
           (match applyHighlights idle [highlightOf "data privacy"] twoPages
            with Ok r => fst r | TypeError => [] end)
           (match applyHighlights (mkViewerState (Some "h1") None (Some "h1"))
                    [highlightOf "data privacy"]
                    [plainPage 5 ["intro"; "data"; "privacy"]]
            with Ok r => fst r | TypeError => [] end)).
  - reflexivity.
  - vm_compute. reflexivity.
  - vm_compute. reflexivity.
Defined.

(** ** The colour update on hover and selection *)

Lemma globalSpans_recolor (st : ViewerState) (dom : list PageDom) :
  globalSpans (updateHighlightColors st dom)
  = map (recolorSpan st) (globalSpans dom).
Proof.
  unfold updateHighlightColors. destruct dom as [|p0 dom0]; [reflexivity|].
  cbn [List.length Nat.eqb]. generalize (p0 :: dom0). clear. intros dom.
  induction dom as [|p dom IH]; [reflexivity|].
  cbn [map]. rewrite !globalSpans_cons, map_app, IH. f_equal.
  unfold recolorPage. simpl. now destruct (textSpans p).
Qed.

Lemma recolor_of_tagged (st st' : ViewerState) (h : HighlightData)
    (a b : HTMLElement) :
  id h <> "" ->
  style_backgroundColor (recolorSpan st' (tagSpan st h a))
  = style_backgroundColor (tagSpan st' h b)
  /\ dataset_highlightId (recolorSpan st' (tagSpan st h a))
     = dataset_highlightId (tagSpan st' h b).
Proof.
  intros Hid. unfold recolorSpan. cbn [dataset_highlightId tagSpan].
  destruct (String.eqb_spec (id h) ""); [contradiction|]. auto.
Qed.

(** X13: when hover or selection changes after a pass, the colour update
    gives every span the background a fresh pass under the new state would
    give it, and leaves the highlight ids in place, provided no highlight
    has the empty id. *)
Theorem recolor_agrees_with_fresh_pass (st st' : ViewerState)
    (highlightData : list HighlightData) (dom dom1 dom2 : list PageDom)
    (sel1 sel2 : list (HighlightData * Candidate)) :
  (forall h, In h highlightData -> id h <> "") ->
  applyHighlights st highlightData dom = Ok (dom1, sel1) ->
  applyHighlights st' highlightData dom = Ok (dom2, sel2) ->
  map style_backgroundColor (globalSpans (updateHighlightColors st' dom1))
  = map style_backgroundColor (globalSpans dom2)
  /\ map dataset_highlightId (globalSpans (updateHighlightColors st' dom1))
     = map dataset_highlightId (globalSpans dom2).
Proof.
  intros Hids H1 H2. rewrite globalSpans_recolor.
  set (R := fun el1 el2 : HTMLElement =>
              style_backgroundColor (recolorSpan st' el1)
              = style_backgroundColor el2
              /\ dataset_highlightId (recolorSpan st' el1)
                 = dataset_highlightId el2).
  assert (Hfinal : forall l1 l2, Forall2 R l1 l2 ->
            map style_backgroundColor (map (recolorSpan st') l1)
            = map style_backgroundColor l2
            /\ map dataset_highlightId (map (recolorSpan st') l1)
               = map dataset_highlightId l2).
  { induction 1 as [|a b l1 l2 [Hbg Hid] _ [IH1 IH2]]; [auto|].
    simpl. now rewrite Hbg, Hid, IH1, IH2. }
  assert (Hinit : forall l, Forall2 R (map clearSpan l) (map clearSpan l)).
  { induction l as [|a l IH]; simpl; constructor; [|assumption].
    unfold R. simpl. auto. }
  apply Hfinal.
  apply applyHighlights_inv in H1 as [(Hn1 & -> & _)|(Hne1 & Hrun1 & _)];
    apply applyHighlights_inv in H2 as [(Hn2 & -> & _)|(Hne2 & Hrun2 & _)];
    try contradiction.
  - rewrite globalSpans_clear. apply Hinit.
  - destruct (forEachHighlight_two_runs R st st' _ highlightData
                (fun h a b Hin => recolor_of_tagged st st' h a b (Hids h Hin))
                _ _ _ _ _ (Hinit (globalSpans dom)) Hrun1 Hrun2) as [HR _].
    exact HR.
Qed.

Lemma recolor_agrees_with_fresh_pass_witness :
  map style_backgroundColor
    (globalSpans
       (updateHighlightColors (mkViewerState (Some "h1") None None)
          (match applyHighlights idle [highlightOf "data privacy"] twoPages
           with Ok r => fst r | TypeError => [] end)))
  = map style_backgroundColor
      (globalSpans
         (match applyHighlights (mkViewerState (Some "h1") None None)
                  [highlightOf "data privacy"] twoPages
          with Ok r => fst r | TypeError => [] end))
  /\ map dataset_highlightId
       (globalSpans
          (updateHighlightColors (mkViewerState (Some "h1") None None)
             (match applyHighlights idle [highlightOf "data privacy"] twoPages
              with Ok r => fst r | TypeError => [] end)))
     = map dataset_highlightId
         (globalSpans
            (match applyHighlights (mkViewerState (Some "h1") None None)
                     [highlightOf "data privacy"] twoPages
             with Ok r => fst r | TypeError => [] end)).
Proof.
  apply (recolor_agrees_with_fresh_pass idle
           (mkViewerState (Some "h1") None None)
           [highlightOf "data privacy"] twoPages _ _
           [(highlightOf "data privacy", mkCandidate 1 2)]
           [(highlightOf "data privacy", mkCandidate 1 2)]).
  - intros h [<-|[]]. discriminate.
  - vm_compute. reflexivity.
  - vm_compute. reflexivity.
Defined.



(** ** Scroll tracking *)

Section ScrollingFacts.
Context {coord : Type} (reached : coord -> coord -> bool).

Lemma visible_page_fold (pageTop : nat -> option coord) (containerTop : coord)
    (n : nat) :
  forall k acc,
    let r := fold_left
               (fun visiblePage i =>
                  match pageTop i with
                  | Some top => if reached top containerTop then i
                                else visiblePage
                  | None => visiblePage
                  end) (seq k n) acc in
    (r = acc
     \/ (k <= r < k + n
         /\ exists top, pageTop r = Some top
                        /\ reached top containerTop = true))
    /\ forall i top, k <= i < k + n -> pageTop i = Some top ->
                     reached top containerTop = true -> i <= r.
Proof.
  induction n as [|n IH]; intros k acc; cbv zeta; simpl.
  - split; [now left|]. intros i top Hi. lia.
  - set (acc' := match pageTop k with
                 | Some top => if reached top containerTop then k else acc
                 | None => acc
                 end).
    destruct (IH (S k) acc') as [Hr Hmax]. cbv zeta in Hr, Hmax.
    set (r := fold_left _ (seq (S k) n) acc') in *.
    split.
    + destruct Hr as [Hr|[Hrange Hq]]; [|right; split; [lia|assumption]].
      rewrite Hr. unfold acc'.
      destruct (pageTop k) as [top|] eqn:Ek; [|now left].
      destruct (reached top containerTop) eqn:Er; [|now left].
      right. split; [lia|]. now exists top.
    + intros i top Hi Hp Hq.
      destruct (Nat.eq_dec i k) as [->|Hne].
      * assert (Hk : acc' = k) by (unfold acc'; now rewrite Hp, Hq).
        destruct Hr as [Hr|[Hrange _]]; lia.
      * apply (Hmax i top); [lia|assumption|assumption].
Qed.

(** X15: the page [handleScroll] takes as visible is the last page, among
    pages 1 to [numPages] that have an element, whose top has reached the
    line 100 pixels below the top of the container; it is page 1 when there
    is none. *)
Theorem visible_page_is_last_reached (pageTop : nat -> option coord)
    (containerTop : coord) (numPages : nat) :
  let v := findVisiblePage reached pageTop containerTop numPages in
  (v = 1
   \/ (1 <= v <= numPages
       /\ exists top, pageTop v = Some top
                      /\ reached top containerTop = true))
  /\ (forall i top,
        1 <= i <= numPages -> pageTop i = Some top ->
        reached top containerTop = true -> i <= v)
  /\ ((forall i top, 1 <= i <= numPages -> pageTop i = Some top ->
                     reached top containerTop = false) -> v = 1).
Proof.
  destruct (visible_page_fold pageTop containerTop numPages 1 1) as [Hr Hmax].
  cbv zeta in *. unfold findVisiblePage.
  set (v := fold_left _ (seq 1 numPages) 1) in *.
  split; [|split].
  - destruct Hr as [Hr|[Hrange Hq]]; [now left|right]. split; [lia|assumption].
  - intros i top Hi. apply Hmax. lia.
  - intros Hnone. destruct Hr as [Hr|[Hrange [top [Hp Hq]]]]; [assumption|].
    assert (Hv : 1 <= v <= numPages) by lia.
    rewrite (Hnone v top Hv Hp) in Hq. discriminate.
Qed.

(** X16: scroll detection and programmatic scrolling do not feed each
    other.  A page change reported by [handleScroll] does not make the
    page-change effect scroll; [handleScroll] reports a page at most once
    for one geometry; and in the state the effect leaves when it starts a
    scroll, [handleScroll] reports nothing, until the callback of the timer
    enables it again. *)
Theorem scroll_handlers_do_not_loop (container : option coord)
    (pageTop : nat -> option coord) (numPages : nat) (refs : ScrollRefs) :
  (forall refs' p hasContainer hasElement n,
     handleScroll reached container pageTop numPages refs
     = (refs', [OnPageChange p]) ->
     pageChangeEffect hasContainer hasElement n p refs' = (refs', []))
  /\ snd (handleScroll reached container pageTop numPages
            (fst (handleScroll reached container pageTop numPages refs)))
     = []
  /\ (forall refs' acts hasContainer hasElement n p,
        pageChangeEffect hasContainer hasElement n p refs = (refs', acts) ->
        In (ScrollIntoView p) acts ->
        handleScroll reached container pageTop numPages refs' = (refs', [])
        /\ isUserScrolling (timerFires refs') = true
        /\ lastRequestedPage (timerFires refs') = p).
Proof.
  split; [|split].
  - intros refs' p hasContainer hasElement n. unfold handleScroll.
    destruct container as [ct|]; [|discriminate].
    destruct (isUserScrolling refs); simpl; [|discriminate].
    destruct (findVisiblePage reached pageTop ct numPages
              =? lastRequestedPage refs); simpl; [discriminate|].
    intros H. injection H as <- <-. unfold pageChangeEffect. simpl.
    rewrite Nat.eqb_refl. now destruct (negb hasContainer || (n =? 0)).
  - unfold handleScroll. destruct container as [ct|]; [|reflexivity].
    destruct (isUserScrolling refs) eqn:Eu.
    + cbn [negb].
      destruct (findVisiblePage reached pageTop ct numPages
                =? lastRequestedPage refs) eqn:Ev; cbn [negb fst snd].
      * rewrite Eu. cbn [negb]. now rewrite Ev.
      * cbn [isUserScrolling lastRequestedPage negb].
        now rewrite Nat.eqb_refl.
    + cbn [negb fst]. now rewrite Eu.
  - intros refs' acts hasContainer hasElement n p. unfold pageChangeEffect.
    destruct (negb hasContainer || (n =? 0)).
    { intros H. injection H as <- <-. intros []. }
    destruct (lastRequestedPage refs =? p).
    { intros H. injection H as <- <-. intros []. }
    destruct (hasElement p).
    + intros H. injection H as <- <-. intros _.
      unfold handleScroll. simpl. split; [now destruct container|auto].
    + intros H. injection H as <- <-. intros [].
Qed.

End ScrollingFacts.

Lemma scroll_handlers_do_not_loop_witness :
  pageChangeEffect true (fun _ => true) 3 2 (mkScrollRefs 2 true false)
  = (mkScrollRefs 2 true false, [])
  /\ handleScroll (fun top ct => top <=? ct + 100) (Some 0)
       (fun i => Some (i * 1000 - 1900)) 3 (mkScrollRefs 3 false true)
     = (mkScrollRefs 3 false true, []).
Proof.
  destruct (scroll_handlers_do_not_loop (fun top ct => top <=? ct + 100)
              (Some 0) (fun i => Some (i * 1000 - 1900)) 3
              (mkScrollRefs 1 true false)) as (Hloop & _ & _).
  destruct (scroll_handlers_do_not_loop (fun top ct => top <=? ct + 100)
              (Some 0) (fun i => Some (i * 1000 - 1900)) 3
              (mkScrollRefs 1 true false)) as (_ & _ & Hquiet).
  split.
  - apply (Hloop (mkScrollRefs 2 true false) 2 true (fun _ => true) 3).
    vm_compute. reflexivity.
  - apply (Hquiet (mkScrollRefs 3 false true)
             [ScrollIntoView 3; SetTimeout600] true (fun _ => true) 3 3).
    + vm_compute. reflexivity.
    + now left.
Defined.

Lemma visible_page_is_last_reached_witness :
  2 <= findVisiblePage (fun top ct => top <=? ct + 100)
         (fun i => Some (i * 1000 - 1900)) 0 3.
Proof.
  destruct (visible_page_is_last_reached (fun top ct => top <=? ct + 100)
              (fun i => Some (i * 1000 - 1900)) 0 3) as (_ & Hlast & _).
  apply (Hlast 2 100); [lia|reflexivity|reflexivity].
Defined.

(** ** Rendered pages *)

Lemma pagesHas_In (s : list nat) (n : nat) : pagesHas s n = true <-> In n s.
Proof.
  unfold pagesHas. rewrite existsb_exists. split.
  - intros [x [Hx Heq]]. apply Nat.eqb_eq in Heq. now subst.
  - intros Hn. exists n. split; [assumption|apply Nat.eqb_refl].
Qed.

Lemma fold_pagesAdd_fresh (l : list nat) :
  forall acc, NoDup (acc ++ l) -> fold_left pagesAdd l acc = acc ++ l.
Proof.
  induction l as [|n l IH]; intros acc Hnd; simpl.
  - now rewrite app_nil_r.
  - assert (Hfresh : pagesHas acc n = false).
    { destruct (pagesHas acc n) eqn:E; [|reflexivity].
      apply pagesHas_In in E. apply NoDup_remove_2 in Hnd.
      exfalso. apply Hnd. apply in_or_app. now left. }
    unfold pagesAdd at 2. rewrite Hfresh.
    rewrite IH by (rewrite <- app_assoc; exact Hnd).
    now rewrite <- app_assoc.
Qed.

Lemma fold_pagesAdd_known (l : list nat) :
  forall acc, (forall n, In n l -> In n acc) -> fold_left pagesAdd l acc = acc.
Proof.
  induction l as [|n l IH]; intros acc Hin; simpl; [reflexivity|].
  assert (Hn : pagesHas acc n = true) by (apply pagesHas_In, Hin; now left).
  unfold pagesAdd at 2. rewrite Hn. apply IH. intros m Hm. apply Hin. now right.
Qed.

Lemma handlePageRenderSuccess_eq (prev : list nat) (pageNumber : nat) :
  NoDup prev ->
  handlePageRenderSuccess prev pageNumber
  = if pagesHas prev pageNumber then prev else prev ++ [pageNumber].
Proof.
  intros Hnd. unfold handlePageRenderSuccess. rewrite fold_left_app.
  rewrite (fold_pagesAdd_fresh prev []) by exact Hnd. reflexivity.
Qed.

(** X17: when a page finishes rendering, the set of rendered pages stays
    free of duplicates and keeps its order; the spans already collected keep
    their global indices, the spans of a newly rendered page come after
    them, and a page rendered again adds nothing. *)
Theorem rendered_pages_keep_global_indices
    (pageRefs : nat -> option (list HTMLElement)) (prev : list nat)
    (pageNumber : nat) :
  NoDup prev ->
  NoDup (handlePageRenderSuccess prev pageNumber)
  /\ (forall n, In n (handlePageRenderSuccess prev pageNumber)
                <-> In n prev \/ n = pageNumber)
  /\ collectSpans (domOf pageRefs (handlePageRenderSuccess prev pageNumber))
     = collectSpans (domOf pageRefs prev)
       ++ (if pagesHas prev pageNumber then []
           else collectSpans (domOf pageRefs [pageNumber])).
Proof.
  intros Hnd. rewrite handlePageRenderSuccess_eq by assumption.
  destruct (pagesHas prev pageNumber) eqn:E.
  - apply pagesHas_In in E. rewrite app_nil_r.
    split; [assumption|]. split; [|reflexivity].
    intros n. split; [auto|]. intros [H| ->]; assumption.
  - split; [|split].
    + apply NoDup_app; [assumption|repeat constructor; intros []|].
      intros n Hn [<-|[]]. apply pagesHas_In in Hn. congruence.
    + intros n. rewrite in_app_iff. simpl. intuition.
    + unfold domOf, collectSpans. now rewrite map_app, flat_map_app.
Qed.

Lemma rendered_pages_keep_global_indices_witness :
  NoDup (handlePageRenderSuccess [2; 1] 3)
  /\ (forall n, In n (handlePageRenderSuccess [2; 1] 3)
                <-> In n [2; 1] \/ n = 3)
  /\ collectSpans (domOf (fun n => Some [plainSpan "text"])
                     (handlePageRenderSuccess [2; 1] 3))
     = collectSpans (domOf (fun n => Some [plainSpan "text"]) [2; 1])
       ++ (if pagesHas [2; 1] 3 then []
           else collectSpans (domOf (fun n => Some [plainSpan "text"]) [3])).
Proof.
  apply (rendered_pages_keep_global_indices
           (fun n => Some [plainSpan "text"]) [2; 1] 3).
  repeat constructor; simpl; intuition discriminate.
Defined.

(** ** The comparison page *)

Lemma bool_eq_iff (a b : bool) : (a = true <-> b = true) -> a = b.
Proof. destruct a, b; intuition congruence. Qed.

Lemma fold_setAdd_NoDup (l : list string) :
  forall s, NoDup s -> NoDup (fold_left setAdd l s).
Proof.
  induction l as [|w l IH]; intros s Hs; simpl; [assumption|].
  apply IH. unfold setAdd. destruct (setHas s w) eqn:E; [assumption|].
  apply NoDup_app; [assumption|repeat constructor; intros []|].
  intros x Hx [<-|[]]. apply setHas_In in Hx. congruence.
Qed.

Lemma setDelete_In (s : list string) (w x : string) :
  In x (setDelete s w) <-> In x s /\ x <> w.
Proof.
  unfold setDelete. rewrite filter_In, negb_true_iff.
  destruct (String.eqb_spec w x); intuition congruence.
Qed.

(** X18: [toggleTheme] flips the membership of the clicked theme and of no
    other; the result has no duplicate, and toggling the same theme twice
    brings back the theme's expansion state. *)
Theorem toggleTheme_flips_one (name : string) (prev : list string)
    (x : string) :
  setHas (toggleTheme name prev) x
  = (if String.eqb x name then negb (setHas prev name) else setHas prev x)
  /\ NoDup (toggleTheme name prev)
  /\ setHas (toggleTheme name (toggleTheme name prev)) x = setHas prev x.
Proof.
  assert (Hflip : forall prev x,
            setHas (toggleTheme name prev) x
            = (if String.eqb x name then negb (setHas prev name)
               else setHas prev x)).
  { clear. intros prev x. unfold toggleTheme.
    assert (Hset : forall y, setHas (newSet prev) y = setHas prev y).
    { intros y. apply bool_eq_iff. now rewrite !setHas_In, newSet_In. }
    rewrite Hset. apply bool_eq_iff.
    destruct (setHas prev name) eqn:E.
    - rewrite setHas_In, setDelete_In, <- setHas_In, Hset.
      destruct (String.eqb_spec x name) as [->|Hne]; simpl.
      + intuition discriminate.
      + intuition.
    - rewrite setHas_In, setAdd_In, <- setHas_In, Hset.
      destruct (String.eqb_spec x name) as [->|Hne]; simpl.
      + intuition.
      + intuition. }
  split; [apply Hflip|]. split.
  - unfold toggleTheme.
    assert (Hnd : NoDup (newSet prev))
      by (apply fold_setAdd_NoDup; constructor).
    destruct (setHas (newSet prev) name) eqn:E.
    + now apply NoDup_filter.
    + unfold setAdd. rewrite E.
      apply NoDup_app; [assumption|repeat constructor; intros []|].
      intros y Hy [<-|[]]. apply setHas_In in Hy. congruence.
  - rewrite !Hflip. rewrite String.eqb_refl.
    destruct (String.eqb_spec x name) as [->|Hne]; [|reflexivity].
    now rewrite negb_involutive.
Qed.

(** X19: after a comparison loads, the expanded themes are exactly the
    names of the themes whose status is not "Fully Aligned", each once. *)
Theorem themesWithIssues_spec (themes : list ComparisonTheme) :
  NoDup (themesWithIssues themes)
  /\ forall name,
       In name (themesWithIssues themes)
       <-> exists t, In t themes /\ theme_name t = name
                     /\ theme_status t <> "Fully Aligned".
Proof.
  unfold themesWithIssues.
  assert (Hgen : forall acc,
            NoDup acc ->
            NoDup (fold_left
                     (fun issues t =>
                        if negb (String.eqb (theme_status t) "Fully Aligned")
                        then setAdd issues (theme_name t) else issues)
                     themes acc)
            /\ forall name,
                 In name (fold_left
                            (fun issues t =>
                               if negb (String.eqb (theme_status t)
                                                   "Fully Aligned")
                               then setAdd issues (theme_name t) else issues)
                            themes acc)
                 <-> In name acc
                     \/ exists t, In t themes /\ theme_name t = name
                                  /\ theme_status t <> "Fully Aligned").
  { induction themes as [|t rest IH]; intros acc Hacc; simpl.
    - split; [assumption|]. intros name. split; [auto|].
      intros [H|[t [[] _]]]. assumption.
    - destruct (String.eqb_spec (theme_status t) "Fully Aligned") as [Heq|Hne];
        simpl.
      + destruct (IH acc Hacc) as [Hnd Hin]. split; [assumption|].
        intros name. rewrite Hin. split.
        * intros [H|[t' [Ht' H]]]; [now left|right; exists t'; auto].
        * intros [H|[t' [[<-|Ht'] [Hn Hs]]]]; [now left|contradiction|].
          right. exists t'. auto.
      + destruct (IH (setAdd acc (theme_name t))) as [Hnd Hin].
        { apply (fold_setAdd_NoDup [theme_name t] acc Hacc). }
        split; [assumption|].
        intros name. rewrite Hin, setAdd_In. split.
        * intros [[H| ->]|[t' [Ht' H]]]; [now left| |right; exists t'; auto].
          right. exists t. auto.
        * intros [H|[t' [[<-|Ht'] [Hn Hs]]]]; [auto|left; right; auto|].
          right. exists t'. auto. }
  destruct (Hgen [] (NoDup_nil _)) as [Hnd Hin]. split; [assumption|].
  intros name. rewrite Hin. simpl. tauto.
Qed.

(** ** Re-applying the highlights *)

(** X20: the text layer is only cleared by a pass, and the effect runs no
    pass for an empty highlight list: with an empty list the spans keep
    whatever tags they carry, whereas with a non-empty list of highlights
    none of which finds a range every span is cleared. *)
Theorem stale_tags_stay_without_highlights (st : ViewerState)
    (highlightData : list HighlightData) (dom : list PageDom) :
  reapplyHighlightsEffect st [] dom = Ok dom
  /\ (highlightData <> [] ->
      (forall h, In h highlightData ->
                 matchHighlight (buildSpanData (collectSpans dom)) h = Ok None) ->
      reapplyHighlightsEffect st highlightData dom = Ok (map clearPage dom)).
Proof.
  split; [reflexivity|].
  intros Hne Hnone. unfold reapplyHighlightsEffect.
  destruct highlightData as [|h0 rest]; [contradiction|].
  cbn [List.length Nat.eqb orb].
  destruct dom as [|p dom']; [reflexivity|].
  cbn [List.length Nat.eqb].
  destruct (applyHighlights_spec st (h0 :: rest) (p :: dom'))
    as (els & sel & Heq & Hlen & Hsel & _ & Hout).
  rewrite Heq. unfold bind. cbn [fst]. f_equal.
  assert (Hels : els = map clearSpan (globalSpans (p :: dom'))).
  { apply nth_error_ext. intros i. apply Hout. intros h c Hin.
    destruct (Hsel h c Hin) as [Hh Hm]. rewrite (Hnone h Hh) in Hm.
    discriminate. }
  rewrite Hels, <- globalSpans_clear. apply storeSpans_same.
Qed.

Lemma stale_tags_stay_without_highlights_witness :
  reapplyHighlightsEffect idle [highlightOf "data"] stalePage
  = Ok (map clearPage stalePage).
Proof.
  destruct (stale_tags_stay_without_highlights idle [highlightOf "data"]
              stalePage) as [_ Hclear].
  apply Hclear; [discriminate|].
  intros h [<-|[]]. vm_compute. reflexivity.
Defined.

(** A run of underscores (a blank to fill in) comes out of [extractWords]
    as a word. *)
Example underscores_alone_are_a_word :
  extractWords "Name: ___" = ["name"; "___"]
  /\ normalize "Name: ___" = ["name"].
Proof. split; vm_compute; reflexivity. Qed.
